(** * Warehouse schema types: the Array schema type and schema hooks

    A shallow embedding of [lib/types/array.js] (the [SchemaTypeArray]
    prototype) over a small model of JavaScript values and of the store of
    mutable arrays, followed by the properties of its operations.  The base
    schema type and the hook registration of the schema, whose sources are
    not at hand, are modelled from the spec. *)

From Stdlib Require Import ZArith Lia.
From stdpp Require Import base tactics option list strings.

Set Default Proof Using "Type".

(** ** JavaScript values and the array store *)

(** Arrays are mutable objects: a value of array type is a reference into the
    store.  Numbers are the integer-valued doubles together with [NaN]
    (fractions, infinities and the negative zero are left out); strings,
    plain objects and functions are left out of the universe of document
    values. *)
Abbreviation addr := nat.

Inductive number :=
| Int (z : Z)
| NaN.

Inductive val :=
| VUndef
| VNull
| VBool (b : bool)
| VNum (n : number)
| VArr (a : addr).

#[global] Instance number_eq_dec : EqDecision number.
Proof. solve_decision. Defined.
#[global] Instance val_eq_dec : EqDecision val.
Proof. solve_decision. Defined.

(** The store: the array allocated [a]-th lives at index [a]. *)
Abbreviation heap := (list (list val)).

Inductive message :=
| MNotArray (v : val)      (* `${value}` is not an array! *)
| MRequired                (* `${name}` is required! *)
| MNotFunction             (* x.f is not a function *)
| MNoProperties            (* cannot read properties of null/undefined *)
| MText (s : string).

Inductive error :=
| ValidationError (m : message)
| TypeError (m : message).

Inductive outcome (A : Type) :=
| Ok (x : A)
| Throw (e : error).
Arguments Ok {A} x.
Arguments Throw {A} e.

Definition bindO {A B} (c : outcome A) (k : A -> outcome B) : outcome B :=
  match c with
  | Ok x => k x
  | Throw e => Throw e
  end.

Definition mapO {A B} (f : A -> B) (c : outcome A) : outcome B :=
  bindO c (fun x => Ok (f x)).

(** Code that allocates or mutates arrays threads the store; a thrown error
    keeps the writes made before it. *)
Definition M (A : Type) := heap -> outcome A * heap.

Definition ret {A} (x : A) : M A := fun h => (Ok x, h).
Definition throw {A} (e : error) : M A := fun h => (Throw e, h).
Definition bind {A B} (c : M A) (k : A -> M B) : M B :=
  fun h => match c h with
           | (Ok x, h1) => k x h1
           | (Throw e, h1) => (Throw e, h1)
           end.
Definition liftO {A} (c : heap -> outcome A) : M A := fun h => (c h, h).

Declare Scope js_scope.
Delimit Scope js_scope with js.
Notation "x <- c ;; k" := (bind c (fun x => k))
  (at level 100, c at next level, right associativity) : js_scope.
Notation "c ;;; k" := (bind c (fun _ => k))
  (at level 100, right associativity) : js_scope.
Notation "x <-? c ;; k" := (bindO c (fun x => k))
  (at level 100, c at next level, right associativity) : js_scope.
Open Scope js_scope.

(** *** Primitive operations *)

(** [!v] is [negb (truthy v)]. *)
Definition truthy (v : val) : bool :=
  match v with
  | VUndef | VNull => false
  | VBool b => b
  | VNum (Int z) => negb (z =? 0)%Z
  | VNum NaN => false
  | VArr _ => true
  end.

(** [v == null] *)
Definition is_nullish (v : val) : bool :=
  match v with
  | VUndef | VNull => true
  | _ => false
  end.

Definition isArray (v : val) : bool :=
  match v with
  | VArr _ => true
  | _ => false
  end.

(** [a === b]: identity of references, equality of primitives, and [NaN]
    different from itself. *)
Definition strict_eq (a b : val) : bool :=
  match a, b with
  | VNum NaN, _ | _, VNum NaN => false
  | _, _ => bool_decide (a = b)
  end.

(** SameValueZero, the equality of [Array.prototype.includes]. *)
Definition same_value_zero (a b : val) : bool := bool_decide (a = b).

Definition elems (a : addr) (h : heap) : list val := default [] (h !! a).

Definition alloc (l : list val) : M val :=
  fun h => (Ok (VArr (length h)), h ++ [l]).

(** [arr[i] = x] on a list of elements: writing past the end extends the
    array (the holes read as undefined). *)
Definition write_at (i : nat) (x : val) (l : list val) : list val :=
  if decide (i < length l) then <[i:=x]> l
  else l ++ replicate (i - length l) VUndef ++ [x].

Definition store (a : addr) (i : nat) (x : val) : M unit :=
  fun h => (Ok tt, <[a := write_at i x (elems a h)]> h).

(** [v.length]: a natural number for an array, undefined ([None]) for a
    boolean or a number, a TypeError for null and undefined. *)
Definition get_length (v : val) (h : heap) : outcome (option nat) :=
  match v with
  | VUndef | VNull => Throw (TypeError MNoProperties)
  | VArr a => Ok (Some (length (elems a h)))
  | VBool _ | VNum _ => Ok None
  end.

(** The length as a value, and the number of rounds of
    [for (i = 0; i < len; i++)]. *)
Definition len_val (len : option nat) : val :=
  match len with
  | Some n => VNum (Int (Z.of_nat n))
  | None => VUndef
  end.

Definition bound (len : option nat) : nat := default 0 len.

(** [v[i]] for a [v] that is not null or undefined. *)
Definition get_index (v : val) (i : nat) (h : heap) : val :=
  match v with
  | VArr a => default VUndef (elems a h !! i)
  | _ => VUndef
  end.

(** [v.includes(x)] *)
Definition includes (v x : val) (h : heap) : outcome bool :=
  match v with
  | VArr a => Ok (existsb (same_value_zero x) (elems a h))
  | VUndef | VNull => Throw (TypeError MNoProperties)
  | VBool _ | VNum _ => Throw (TypeError MNotFunction)
  end.

(** [v.push(x)] *)
Definition push (v x : val) : M unit :=
  fun h => match v with
           | VArr a => (Ok tt, <[a := elems a h ++ [x]]> h)
           | VUndef | VNull => (Throw (TypeError MNoProperties), h)
           | VBool _ | VNum _ => (Throw (TypeError MNotFunction), h)
           end.

(** [Array.prototype.slice] on the list of elements: a negative index counts
    from the end, and both indices are clamped to the array. *)
Definition rel_index (k : Z) (len : nat) : nat :=
  if (k <? 0)%Z then Z.to_nat (Z.max (Z.of_nat len + k) 0)
  else Nat.min (Z.to_nat k) len.

Definition slice_list (start end_ : Z) (l : list val) : list val :=
  let k := rel_index start (length l) in
  let final := rel_index end_ (length l) in
  take (final - k) (drop k l).

(** [v.slice(start)] and [v.slice(start, end)]; the result is a new array. *)
Definition slice (v : val) (start : Z) (end_ : option Z) : M val :=
  match v with
  | VArr a =>
      fun h => let l := elems a h in
               alloc (slice_list start (default (Z.of_nat (length l)) end_) l) h
  | VUndef | VNull => throw (TypeError MNoProperties)
  | VBool _ | VNum _ => throw (TypeError MNotFunction)
  end.

(** [for (let i = start; i < start + n; i++) body(i)] *)
Fixpoint for_loop (n : nat) (i : nat) (body : nat -> M unit) : M unit :=
  match n with
  | 0 => ret tt
  | S n' => body i ;;; for_loop n' (S i) body
  end.

(** The same loop in code that only reads the store and may [return] from
    inside the loop body: [Some r] is [return r]. *)
Fixpoint for_find {R} (n : nat) (i : nat) (body : nat -> outcome (option R))
  : outcome (option R) :=
  match n with
  | 0 => Ok None
  | S n' =>
      r <-? body i ;;
      match r with
      | Some x => Ok (Some x)
      | None => for_find n' (S i) body
      end
  end.

(** [v[i] = x]; the module is in strict mode, where a property of a primitive
    cannot be created. *)
Definition set_index (v : val) (i : nat) (x : val) : M unit :=
  match v with
  | VArr a => store a i x
  | VUndef | VNull => throw (TypeError MNoProperties)
  | VBool _ | VNum _ => throw (TypeError (MText "Cannot create property"))
  end.

(** [Math.min] of two lengths: [NaN] (here [None]) as soon as one of them is
    undefined. *)
Definition Math_min (x y : option nat) : option nat :=
  match x, y with
  | Some n, Some m => Some (Nat.min n m)
  | _, _ => None
  end.

(** [lenA - lenB] on two lengths. *)
Definition len_sub (x y : option nat) : number :=
  match x, y with
  | Some n, Some m => Int (Z.of_nat n - Z.of_nat m)
  | _, _ => NaN
  end.

(** [r !== 0] on a number. *)
Definition nonzero (r : number) : bool :=
  match r with
  | Int z => negb (z =? 0)%Z
  | NaN => true
  end.

Definition neg (r : number) : number :=
  match r with
  | Int z => Int (- z)
  | NaN => NaN
  end.

(** [v.concat(arg)]: a new array with the elements of [v], followed by the
    elements of [arg] when it is an array and by [arg] itself otherwise. *)
Definition concat (v arg : val) : M val :=
  match v with
  | VArr a =>
      fun h => alloc (elems a h ++ match arg with
                                   | VArr u => elems u h
                                   | _ => [arg]
                                   end) h
  | VUndef | VNull => throw (TypeError MNoProperties)
  | VBool _ | VNum _ => throw (TypeError MNotFunction)
  end.

(** [v.unshift(x)] *)
Definition unshift (v x : val) : M unit :=
  fun h => match v with
           | VArr a => (Ok tt, <[a := x :: elems a h]> h)
           | VUndef | VNull => (Throw (TypeError MNoProperties), h)
           | VBool _ | VNum _ => (Throw (TypeError MNotFunction), h)
           end.

(** [v.filter(callback)] for a callback that reads the store: the length is
    read once, the new array is made, and the elements that the callback
    accepts are appended to it in index order. *)
Definition array_filter (v : val) (callback : val -> heap -> outcome bool)
  : M val :=
  match v with
  | VArr _ =>
      len <- liftO (get_length v) ;;
      result <- alloc [] ;;
      for_loop (bound len) 0 (fun k =>
        item <- liftO (fun h => Ok (get_index v k h)) ;;
        keep <- liftO (callback item) ;;
        if keep then push result item else ret tt) ;;;
      ret result
  | VUndef | VNull => throw (TypeError MNoProperties)
  | VBool _ | VNum _ => throw (TypeError MNotFunction)
  end.

(** ** The type contract *)

(** What every schema type offers to the array type that owns it as a child:
    the six operations, each taking the [data] argument it is handed through.
    [cast], [validate], [parse] and [value] may allocate and mutate arrays;
    [compare] and [match] read the store. *)
Record SchemaType := {
  st_cast : val -> val -> M val;
  st_validate : val -> val -> M val;
  st_compare : val -> val -> heap -> outcome number;
  st_parse : val -> val -> M val;
  st_value : val -> val -> M val;
  st_match : val -> val -> val -> heap -> outcome bool
}.

(** The options kept by a schema type: the [required] flag, the default as a
    thunk ([this.default()]) and the optional custom validator. *)
Record Options := {
  required : bool;
  default_ : M val;
  validator : option (val -> val -> M val)
}.

(** *** The base schema type *)

Module SchemaTypeBase.

(** Modelled from the spec: [SchemaType.prototype.cast] of
    lib/schematype.js, which is not among the sources.  An absent value
    gives the configured default, evaluated at each call; an explicit null
    is returned as null; any other value is returned as it is. *)
Definition cast (o : Options) (value data : val) : M val :=
  match value with
  | VUndef => default_ o
  | VNull => ret VNull
  | _ => ret value
  end.

(** Modelled from the spec: [SchemaType.prototype.validate] of
    lib/schematype.js, which is not among the sources.  Fails with a
    ValidationError when the value is absent or null and [required] is
    set; otherwise hands the value to the custom validator when one is
    configured, which may fail or return a replacement. *)
Definition validate (o : Options) (value data : val) : M val :=
  if required o && is_nullish value then throw (ValidationError MRequired)
  else match validator o with
       | Some f => f value data
       | None => ret value
       end.

(** The position of a value in the order of the base type: absent and null
    first, then booleans, numbers, [NaN] and references. *)
Definition rank (v : val) : Z * Z :=
  match v with
  | VUndef | VNull => (0, 0)
  | VBool b => (1, if b then 1 else 0)
  | VNum (Int z) => (2, z)
  | VNum NaN => (3, 0)
  | VArr a => (4, Z.of_nat a)
  end%Z.

Definition sign (c : comparison) : number :=
  match c with
  | Lt => Int (-1)
  | Eq => Int 0
  | Gt => Int 1
  end.

(** Modelled from the spec: [SchemaType.prototype.compare] of
    lib/schematype.js, which is not among the sources.  A total order in
    which null and absent sort before any present value and compare equal
    to each other. *)
Definition compare (a b : val) (h : heap) : outcome number :=
  let (ka, xa) := rank a in
  let (kb, xb) := rank b in
  Ok (sign (match (ka ?= kb)%Z with
            | Eq => (xa ?= xb)%Z
            | c => c
            end)).

(** Modelled from the spec: [parse] and [value] of the base type are the
    identity. *)
Definition parse (value data : val) : M val := ret value.
Definition value (value data : val) : M val := ret value.

(** Modelled from the spec: [match] of the base type is equality. *)
Definition match_ (value query data : val) (h : heap) : outcome bool :=
  Ok (strict_eq value query).

Definition contract (o : Options) : SchemaType :=
  {| st_cast := cast o;
     st_validate := validate o;
     st_compare := compare;
     st_parse := parse;
     st_value := value;
     st_match := match_ |}.

(** [new SchemaType(name)]: not required, no default, no validator. *)
Definition new : SchemaType :=
  contract {| required := false; default_ := ret VUndef; validator := None |}.

End SchemaTypeBase.

(** ** The Array schema type *)

Module SchemaTypeArray.

Record t := {
  options : Options;
  child : SchemaType
}.

(** What the caller may pass to the constructor. *)
Record user_options := {
  u_required : bool;
  u_default : option (M val);
  u_validator : option (val -> val -> M val);
  u_child : option SchemaType
}.

(** [function SchemaTypeArray(name, options)]: the default defaults to the
    array literal of the constructor call, the child to a base type.  The
    constructor of the base type, which is not among the sources, is taken
    to keep the options and to make [this.default()] of the default. *)
Definition new (o : user_options) : M t :=
  lit <- alloc [] ;;
  ret {| options := {| required := u_required o;
                       default_ := default (ret lit) (u_default o);
                       validator := u_validator o |};
         child := default SchemaTypeBase.new (u_child o) |}.

Section prototype.
Variable this : t.

Definition cast (value_ data : val) : M val :=
  value <- SchemaTypeBase.cast (options this) value_ data ;;
  if is_nullish value then ret value else
  value <- (if negb (isArray value) then alloc [value] else ret value) ;;
  len <- liftO (get_length value) ;;
  if negb (truthy (len_val len)) then ret value else
  for_loop (bound len) 0 (fun i =>
    x <- liftO (fun h => Ok (get_index value i h)) ;;
    y <- st_cast (child this) x data ;;
    set_index value i y) ;;;
  ret value.

Definition validate (value_ data : val) : M val :=
  value <- SchemaTypeBase.validate (options this) value_ data ;;
  if negb (isArray value) then throw (ValidationError (MNotArray value)) else
  len <- liftO (get_length value) ;;
  if negb (truthy (len_val len)) then ret value else
  for_loop (bound len) 0 (fun i =>
    x <- liftO (fun h => Ok (get_index value i h)) ;;
    y <- st_validate (child this) x data ;;
    set_index value i y) ;;;
  ret value.

Definition compare (a b : val) (h : heap) : outcome number :=
  if truthy a then
    if negb (truthy b) then Ok (Int 1) else
    lenA <-? get_length a h ;;
    lenB <-? get_length b h ;;
    r <-? for_find (bound (Math_min lenA lenB)) 0 (fun i =>
            result <-? st_compare (child this)
                         (get_index a i h) (get_index b i h) h ;;
            Ok (if nonzero result then Some result else None)) ;;
    match r with
    | Some result => Ok result
    | None => Ok (len_sub lenA lenB)
    end
  else Ok (if truthy b then Int (-1) else Int 0).

(** The holes of [new Array(len)] read as undefined until the loop has
    filled them. *)
Definition parse (value data : val) : M val :=
  if negb (truthy value) then ret value else
  len <- liftO (get_length value) ;;
  if negb (truthy (len_val len)) then alloc [] else
  result <- alloc (replicate (bound len) VUndef) ;;
  for_loop (bound len) 0 (fun i =>
    x <- liftO (fun h => Ok (get_index value i h)) ;;
    y <- st_parse (child this) x data ;;
    set_index result i y) ;;;
  ret result.

Definition value (value data : val) : M val :=
  if negb (truthy value) then ret value else
  len <- liftO (get_length value) ;;
  if negb (truthy (len_val len)) then alloc [] else
  result <- alloc (replicate (bound len) VUndef) ;;
  for_loop (bound len) 0 (fun i =>
    x <- liftO (fun h => Ok (get_index value i h)) ;;
    y <- st_value (child this) x data ;;
    set_index result i y) ;;;
  ret result.

Definition match_ (value query data : val) (h : heap) : outcome bool :=
  if negb (truthy value) || negb (truthy query)
  then Ok (strict_eq value query)
  else
    lenA <-? get_length value h ;;
    lenB <-? get_length query h ;;
    if negb (strict_eq (len_val lenA) (len_val lenB)) then Ok false else
    r <-? for_find (bound lenA) 0 (fun i =>
            m <-? st_match (child this)
                    (get_index value i h) (get_index query i h) data h ;;
            Ok (if negb m then Some false else None)) ;;
    match r with
    | Some b => Ok b
    | None => Ok true
    end.

End prototype.

(** The array type is itself a type contract, so array types nest. *)
Definition contract (this : t) : SchemaType :=
  {| st_cast := cast this;
     st_validate := validate this;
     st_compare := compare this;
     st_parse := parse this;
     st_value := value this;
     st_match := match_ this |}.

(** *** Query operators *)

Definition q_size (value query data : val) (h : heap) : outcome bool :=
  len <-? (if truthy value then mapO len_val (get_length value h)
           else Ok (VNum (Int 0))) ;;
  Ok (strict_eq len query).

Definition q_length := q_size.

Definition q_in (value query data : val) (h : heap) : outcome bool :=
  if negb (truthy value) then Ok false else
  len <-? get_length query h ;;
  r <-? for_find (bound len) 0 (fun i =>
          b <-? includes value (get_index query i h) h ;;
          Ok (if b then Some true else None)) ;;
  match r with
  | Some b => Ok b
  | None => Ok false
  end.

Definition q_nin (value query data : val) (h : heap) : outcome bool :=
  if negb (truthy value) then Ok true else
  len <-? get_length query h ;;
  r <-? for_find (bound len) 0 (fun i =>
          b <-? includes value (get_index query i h) h ;;
          Ok (if b then Some false else None)) ;;
  match r with
  | Some b => Ok b
  | None => Ok true
  end.

Definition q_all (value query data : val) (h : heap) : outcome bool :=
  if negb (truthy value) then Ok false else
  len <-? get_length query h ;;
  r <-? for_find (bound len) 0 (fun i =>
          b <-? includes value (get_index query i h) h ;;
          Ok (if negb b then Some false else None)) ;;
  match r with
  | Some b => Ok b
  | None => Ok true
  end.

(** *** Update operators *)

(** The operand of [u$shift] and [u$pop] is a Number or a Boolean. *)
Inductive count :=
| CBool (b : bool)
| CNum (n : number).

Definition count_val (c : count) : val :=
  match c with
  | CBool b => VBool b
  | CNum n => VNum n
  end.

(** [ToNumber] of the operand, [n > 0], the integer that [slice] makes of
    a number, a length as a number, and the sum and difference of numbers. *)
Definition to_number (c : count) : number :=
  match c with
  | CBool b => Int (if b then 1 else 0)
  | CNum n => n
  end.

Definition gt_zero (n : number) : bool :=
  match n with
  | Int z => (0 <? z)%Z
  | NaN => false
  end.

Definition to_integer (n : number) : Z :=
  match n with
  | Int z => z
  | NaN => 0
  end.

Definition len_num (len : option nat) : number :=
  match len with
  | Some n => Int (Z.of_nat n)
  | None => NaN
  end.

Definition num_add (x y : number) : number :=
  match x, y with
  | Int a, Int b => Int (a + b)
  | _, _ => NaN
  end.

Definition num_sub (x y : number) : number :=
  match x, y with
  | Int a, Int b => Int (a - b)
  | _, _ => NaN
  end.

Definition u_shift (value : val) (update : count) (data : val) : M val :=
  if negb (truthy value) || negb (truthy (count_val update)) then ret value else
  if strict_eq (count_val update) (VBool true) then slice value 1 None
  else if gt_zero (to_number update) then
    slice value (to_integer (to_number update)) None
  else
    len <- liftO (get_length value) ;;
    slice value 0 (Some (to_integer (num_add (len_num len) (to_number update)))).

Definition u_pop (value : val) (update : count) (data : val) : M val :=
  if negb (truthy value) || negb (truthy (count_val update)) then ret value else
  length <- liftO (get_length value) ;;
  if strict_eq (count_val update) (VBool true) then
    slice value 0 (Some (to_integer (num_sub (len_num length) (Int 1))))
  else if gt_zero (to_number update) then
    slice value 0 (Some (to_integer (num_sub (len_num length) (to_number update))))
  else
    slice value (to_integer (neg (to_number update)))
      (Some (to_integer (len_num length))).

Definition u_addToSet (value update data : val) : M val :=
  if isArray update then
    if negb (truthy value) then ret update else
    len <- liftO (get_length update) ;;
    for_loop (bound len) 0 (fun i =>
      item <- liftO (fun h => Ok (get_index update i h)) ;;
      b <- liftO (includes value item) ;;
      if negb b then push value item else ret tt) ;;;
    ret value
  else
    if negb (truthy value) then alloc [update] else
    b <- liftO (includes value update) ;;
    (if negb b then push value update else ret tt) ;;;
    ret value.

Definition u_push (value update data : val) : M val :=
  if isArray update then
    if truthy value then concat value update else ret update
  else
    if truthy value then push value update ;;; ret value
    else alloc [update].

Definition u_append := u_push.

Definition u_unshift (value update data : val) : M val :=
  if isArray update then
    if truthy value then concat update value else ret update
  else
    if truthy value then unshift value update ;;; ret value
    else alloc [update].

Definition u_prepend := u_unshift.

Definition u_pull (value update data : val) : M val :=
  if negb (truthy value) then ret value else
  if isArray update then
    array_filter value (fun item h =>
      b <-? includes update item h ;; Ok (negb b))
  else
    array_filter value (fun item h => Ok (negb (strict_eq item update))).

End SchemaTypeArray.

(** ** Schema hooks *)

Module Schema.

(** An argument of [pre] and [post]: a string, a function (known by its
    identity) or any other value, undefined when the argument is left
    out. *)
Definition fn := nat.

Inductive arg :=
| AStr (s : string)
| AFun (f : fn)
| AVal (v : val).

(** Modelled from the spec: the hook registry of lib/schema.js, which is not
    among the sources.  Two kinds (pre, post) times two events (save,
    remove), each an ordered sequence of callables. *)
Record hook_lists := {
  save : list fn;
  remove : list fn
}.

(** The part of a schema the hooks live in: [hooks.pre] and
    [hooks.post]. *)
Record t := {
  hooks_pre : hook_lists;
  hooks_post : hook_lists
}.

(** [new Schema()]: no hook yet. *)
Definition new : t :=
  {| hooks_pre := {| save := []; remove := [] |};
     hooks_post := {| save := []; remove := [] |} |}.

Inductive hook_type := Save | Remove.

#[global] Instance arg_eq_dec : EqDecision arg.
Proof. solve_decision. Defined.

(** Modelled from the spec: the check of the event type, which fails with
    a TypeError unless the type is exactly save or remove (the message is
    the one the test expects). *)
Definition checkHookType (type : arg) : outcome hook_type :=
  if decide (type = AStr "save") then Ok Save
  else if decide (type = AStr "remove") then Ok Remove
  else Throw (TypeError (MText "Hook type must be `save` or `remove`!")).

Definition type_name (ty : hook_type) : arg :=
  match ty with
  | Save => AStr "save"
  | Remove => AStr "remove"
  end.

(** Modelled from the spec: the check of the hook, which fails with a
    TypeError unless the hook is callable. *)
Definition checkHook (f : arg) : outcome fn :=
  match f with
  | AFun f => Ok f
  | _ => Throw (TypeError (MText "Hook must be a function!"))
  end.

Definition add_hook (ty : hook_type) (f : fn) (l : hook_lists) : hook_lists :=
  match ty with
  | Save => {| save := save l ++ [f]; remove := remove l |}
  | Remove => {| save := save l; remove := remove l ++ [f] |}
  end.

Definition hook_list (ty : hook_type) (l : hook_lists) : list fn :=
  match ty with
  | Save => save l
  | Remove => remove l
  end.

(** Modelled from the spec: [Schema.prototype.pre] of lib/schema.js, which
    is not among the sources (only its test is).  Appends [fn] to the
    pre-hook list of the event; fails with a TypeError when the event type
    is not exactly save or remove, and with a TypeError when [fn] is not
    callable.  The schema is mutated in place: the result carries the
    schema after the call. *)
Definition pre (type f : arg) (this : t) : outcome unit * t :=
  match checkHookType type with
  | Throw e => (Throw e, this)
  | Ok ty =>
      match checkHook f with
      | Throw e => (Throw e, this)
      | Ok f => (Ok tt, {| hooks_pre := add_hook ty f (hooks_pre this);
                           hooks_post := hooks_post this |})
      end
  end.

(** Modelled from the spec: [Schema.prototype.post] of lib/schema.js, the
    same for the post-hook lists. *)
Definition post (type f : arg) (this : t) : outcome unit * t :=
  match checkHookType type with
  | Throw e => (Throw e, this)
  | Ok ty =>
      match checkHook f with
      | Throw e => (Throw e, this)
      | Ok f => (Ok tt, {| hooks_pre := hooks_pre this;
                           hooks_post := add_hook ty f (hooks_post this) |})
      end
  end.

End Schema.

(** ** Names used by the properties *)

(** The bodies of the loops above, and what they compute, under names. *)
Module Loops.

(** One round of the element loops of [cast], [validate], [parse] and
    [value]: [dst[i] = child.op(src[i], data)]. *)
Definition transfer (op : val -> val -> M val) (data src dst : val) (i : nat)
  : M unit :=
  x <- liftO (fun h => Ok (get_index src i h)) ;;
  y <- op x data ;;
  set_index dst i y.

(** The part of [cast] and [validate] after the base operation, and the
    whole of [parse] and [value], with the child's operation as a
    parameter. *)
Definition each_in_place (op : val -> val -> M val) (data value : val) : M val :=
  len <- liftO (get_length value) ;;
  if negb (truthy (len_val len)) then ret value else
  for_loop (bound len) 0 (transfer op data value value) ;;;
  ret value.

Definition each_into_new (op : val -> val -> M val) (data value : val) : M val :=
  if negb (truthy value) then ret value else
  len <- liftO (get_length value) ;;
  if negb (truthy (len_val len)) then alloc [] else
  result <- alloc (replicate (bound len) VUndef) ;;
  for_loop (bound len) 0 (transfer op data value result) ;;;
  ret result.

(** The traversal of a list of elements by an operation of the child, in
    order, the store handed from one call to the next: the results up to the
    first error, that error when there is one, and the store after the last
    call. *)
Fixpoint each (op : val -> val -> M val) (data : val) (xs : list val) (h : heap)
  : list val * option error * heap :=
  match xs with
  | [] => ([], None, h)
  | x :: xs' =>
      match op x data h with
      | (Ok y, h1) => let '(ys, e, h2) := each op data xs' h1 in (y :: ys, e, h2)
      | (Throw e, h1) => ([], Some e, h1)
      end
  end.

(** How a traversal ends: with [ok], or with the error it met. *)
Definition ended {A} (ok : A) (e : option error) : outcome A :=
  match e with
  | None => Ok ok
  | Some e => Throw e
  end.

(** The operation leaves the array at [a] alone when it works on [x]: it
    does not shrink the store, and what it does is the same whatever the
    array at [a] holds, that array remaining as it is. *)
Definition local_at (a : addr) (op : val -> val -> M val) (data x : val) : Prop :=
  forall (h : heap) (l1 : list val) o h',
    a < length h -> op x data h = (o, h') ->
    length h <= length h' /\ op x data (<[a := l1]> h) = (o, <[a := l1]> h').

(** One round of the loop of [match]. *)
Definition match_body (this : SchemaTypeArray.t) (a b : addr) (data : val)
  (h : heap) (i : nat) : outcome (option bool) :=
  m <-? st_match (SchemaTypeArray.child this)
          (get_index (VArr a) i h) (get_index (VArr b) i h) data h ;;
  Ok (if negb m then Some false else None).

(** One round of the loop of [compare]. *)
Definition compare_body (this : SchemaTypeArray.t) (h : heap) (a b : val)
  (i : nat) : outcome (option number) :=
  result <-? st_compare (SchemaTypeArray.child this)
               (get_index a i h) (get_index b i h) h ;;
  Ok (if nonzero result then Some result else None).

(** The comparison of [compare] in the words of the spec: lexicographic,
    element by element with the child's [compare], the first result that is
    not zero deciding, and the difference of the lengths when all the
    compared elements tie. *)
Fixpoint lexicographic (cmp : val -> val -> outcome number) (la lb : list val)
  : outcome number :=
  match la, lb with
  | x :: la', y :: lb' =>
      r <-? cmp x y ;;
      if nonzero r then Ok r else lexicographic cmp la' lb'
  | _, _ => Ok (Int (Z.of_nat (length la) - Z.of_nat (length lb)))
  end.

(** One round of the loop of [u$addToSet]. *)
Definition add_body (value update : val) (i : nat) : M unit :=
  item <- liftO (fun h => Ok (get_index update i h)) ;;
  b <- liftO (includes value item) ;;
  if negb b then push value item else ret tt.

(** What the loop of [u$addToSet] leaves in the array: the members of the
    operand are taken in order, and one that the array does not hold yet
    is appended to it. *)
Fixpoint add_missing (l items : list val) : list val :=
  match items with
  | [] => l
  | x :: items' =>
      add_missing (if existsb (same_value_zero x) l then l else l ++ [x]) items'
  end.

End Loops.

(** Array types on which the properties are tried. *)
Module Fixtures.
Import SchemaTypeArray.

(** An array type with the default child, and the store after its
    construction: the array literal of the default sits at address 0. *)
Definition plain : t :=
  {| options := {| required := false; default_ := ret (VArr 0); validator := None |};
     child := SchemaTypeBase.new |}.

(** A child that is required: it rejects null and undefined and returns
    any other value as it is. *)
Definition required_child : SchemaType :=
  SchemaTypeBase.contract
    {| required := true; default_ := ret VUndef; validator := None |}.

Definition required_elements : t :=
  {| options := options plain; child := required_child |}.

Definition check_required (x : val) : outcome val :=
  if is_nullish x then Throw (ValidationError MRequired) else Ok x.

(** A child type whose [validate] rejects what is not a number and
    replaces a negative number by zero; its other operations are those of
    the base type. *)
Definition clamp (v data : val) : M val :=
  match v with
  | VNum (Int z) => ret (VNum (Int (Z.max z 0)))
  | _ => throw (ValidationError (MText "not a number"))
  end.

Definition clamping_child : SchemaType :=
  {| st_cast := st_cast SchemaTypeBase.new;
     st_validate := clamp;
     st_compare := st_compare SchemaTypeBase.new;
     st_parse := st_parse SchemaTypeBase.new;
     st_value := st_value SchemaTypeBase.new;
     st_match := st_match SchemaTypeBase.new |}.

Definition clamping_elements : t :=
  {| options := options plain; child := clamping_child |}.

(** The answers of the base type's [compare], as integers. *)
Definition base_c (x y : val) : Z :=
  let (kx, vx) := SchemaTypeBase.rank x in
  let (ky, vy) := SchemaTypeBase.rank y in
  match (kx ?= ky)%Z with
  | Eq => match (vx ?= vy)%Z with
          | Lt => -1
          | Eq => 0
          | Gt => 1
          end
  | Lt => -1
  | Gt => 1
  end%Z.

(** Array types of arrays. *)
Definition nested : t :=
  {| options := options plain; child := contract plain |}.


End Fixtures.

(** The loop of [Array.prototype.filter], under a name. *)
Module FilterLoop.

Definition filter_body (v result : val) (callback : val -> heap -> outcome bool)
  (k : nat) : M unit :=
  item <- liftO (fun h => Ok (get_index v k h)) ;;
  keep <- liftO (callback item) ;;
  if keep then push result item else ret tt.

(** What [u$pull] keeps of an element, for an operand that is not an array
    and for one that is an array holding [items]. *)
Definition differs (update item : val) : bool := negb (strict_eq item update).

Definition outside (items : list val) (item : val) : bool :=
  negb (existsb (same_value_zero item) items).

End FilterLoop.

(** A child type for numbers that are stored one higher than they are
    used: [parse] reads a stored number, [value] gives the number to store;
    numbers are compared by their difference and matched by strict
    equality. *)
Module Samples.

Definition stored (v : val) : outcome val :=
  match v with
  | VNum (Int z) => Ok (VNum (Int (z - 1)))
  | _ => Ok v
  end.

Definition to_store (v : val) : outcome val :=
  match v with
  | VNum (Int z) => Ok (VNum (Int (z + 1)))
  | _ => Ok v
  end.

Definition difference (x y : val) : number :=
  match x, y with
  | VNum (Int a), VNum (Int b) => Int (a - b)
  | _, _ => Int 0
  end.

Definition shifted_child : SchemaType :=
  {| st_cast := fun v _ => ret v;
     st_validate := fun v _ => ret v;
     st_compare := fun x y _ => Ok (difference x y);
     st_parse := fun v _ => liftO (fun _ => stored v);
     st_value := fun v _ => liftO (fun _ => to_store v);
     st_match := fun x y _ _ => Ok (strict_eq x y) |}.

Definition shifted_elements : SchemaTypeArray.t :=
  {| SchemaTypeArray.options :=
       {| required := false; default_ := ret VUndef; validator := None |};
     SchemaTypeArray.child := shifted_child |}.

End Samples.

(** * Properties *)

(** ** Loops *)

(** A search loop that answers [b] at the first index where the test [p]
    holds: its result in terms of the tests, for both answers at once. *)
Lemma for_find_flip (n i : nat) (p : nat -> outcome bool) (b : bool) :
  for_find n i (fun j => t <-? p j ;; Ok (if t then Some (negb b) else None))
  = mapO (option_map negb)
      (for_find n i (fun j => t <-? p j ;; Ok (if t then Some b else None))).
Proof.
  revert i; induction n as [|n IH]; intros i; simpl; [reflexivity|].
  destruct (p i) as [[|]|e]; simpl; try reflexivity.
  apply IH.
Qed.

(** ** Hooks *)

Module SchemaFacts.
Import Schema.

Lemma checkHookType_name ty : checkHookType (type_name ty) = Ok ty.
Proof. destruct ty; reflexivity. Qed.

Lemma checkHookType_other type :
  type <> AStr "save" -> type <> AStr "remove" ->
  checkHookType type =
    Throw (TypeError (MText "Hook type must be `save` or `remove`!")).
Proof.
  intros H1 H2; unfold checkHookType.
  destruct (decide (type = AStr "save")); [contradiction|].
  destruct (decide (type = AStr "remove")); [contradiction|reflexivity].
Qed.

Lemma checkHook_not_callable f :
  (forall g, f <> AFun g) ->
  checkHook f = Throw (TypeError (MText "Hook must be a function!")).
Proof. intros H; destruct f; try reflexivity. destruct (H f); reflexivity. Qed.

Lemma hook_list_add ty f l : hook_list ty (add_hook ty f l) = hook_list ty l ++ [f].
Proof. destruct ty; reflexivity. Qed.

(** C9.  [pre] and [post] append the function to the hook list of the
    event (so that one registration on a new schema leaves a list of
    length 1); both fail with a TypeError, leaving the schema as it was,
    when the event type is not exactly save or remove, and when the hook
    is not a function. *)
Theorem pre_post_registration :
  (forall ty f this,
      exists this',
        pre (type_name ty) (AFun f) this = (Ok tt, this') /\
        hook_list ty (hooks_pre this') = hook_list ty (hooks_pre this) ++ [f] /\
        hooks_post this' = hooks_post this) /\
  (forall ty f this,
      exists this',
        post (type_name ty) (AFun f) this = (Ok tt, this') /\
        hook_list ty (hooks_post this') = hook_list ty (hooks_post this) ++ [f] /\
        hooks_pre this' = hooks_pre this) /\
  (forall ty f,
      length (hook_list ty (hooks_pre (snd (pre (type_name ty) (AFun f) new)))) = 1 /\
      length (hook_list ty (hooks_post (snd (post (type_name ty) (AFun f) new)))) = 1) /\
  (forall type f this,
      type <> AStr "save" -> type <> AStr "remove" ->
      exists m, pre type f this = (Throw (TypeError m), this) /\
                post type f this = (Throw (TypeError m), this)) /\
  (forall type f this,
      (forall g, f <> AFun g) ->
      exists m, pre type f this = (Throw (TypeError m), this) /\
                post type f this = (Throw (TypeError m), this)).
Proof.
  repeat split.
  - intros ty f this; unfold pre; rewrite checkHookType_name; simpl.
    eexists; split; [reflexivity|]; simpl; split; [apply hook_list_add|reflexivity].
  - intros ty f this; unfold post; rewrite checkHookType_name; simpl.
    eexists; split; [reflexivity|]; simpl; split; [apply hook_list_add|reflexivity].
  - destruct ty; reflexivity.
  - destruct ty; reflexivity.
  - intros type f this H1 H2; unfold pre, post.
    rewrite (checkHookType_other _ H1 H2); eexists; split; reflexivity.
  - intros type f this Hf; unfold pre, post.
    rewrite (checkHook_not_callable _ Hf); unfold checkHookType.
    repeat case_decide; eexists; split; reflexivity.
Qed.

(** [pre('wtf', fn)] and [pre('save')] on a new schema. *)
Lemma pre_post_registration_witness :
  (exists m, pre (AStr "wtf") (AFun 0) new = (Throw (TypeError m), new)) /\
  (exists m, pre (AStr "save") (AVal VUndef) new = (Throw (TypeError m), new)).
Proof.
  destruct pre_post_registration as (_ & _ & _ & Hty & Hfn).
  split.
  - destruct (Hty (AStr "wtf") (AFun 0) new) as (m & Hm & _);
      [discriminate|discriminate|].
    exists m; exact Hm.
  - destruct (Hfn (AStr "save") (AVal VUndef) new) as (m & Hm & _);
      [intros g; discriminate|].
    exists m; exact Hm.
Defined.

End SchemaFacts.

(** ** Query operators of the array type *)

Module QueryFacts.
Import SchemaTypeArray.

Lemma q_nin_negb_q_in value query data h :
  q_nin value query data h = mapO negb (q_in value query data h).
Proof.
  unfold q_nin, q_in.
  destruct (truthy value); simpl; [|reflexivity].
  destruct (get_length query h) as [len|e]; simpl; [|reflexivity].
  rewrite (for_find_flip _ _ (fun i => includes value (get_index query i h) h) true).
  simpl.
  destruct (for_find _ _ _) as [[[|]|]|e]; reflexivity.
Qed.

(** C10.  [q$nin] is the negation of [q$in] on every value and query (an
    error of one is the same error of the other); [q$length] is the very
    function [q$size]; and on a falsy value [q$in] and [q$all] answer
    false and [q$nin] answers true whatever the query is, so that
    [q$all(null, [])] is false, while [q$all] of an array and the empty
    query is true. *)
Theorem q_nin_q_in_q_all :
  (forall value query data h,
      q_nin value query data h = mapO negb (q_in value query data h)) /\
  q_length = q_size /\
  (forall value query data h,
      truthy value = false ->
      q_in value query data h = Ok false /\
      q_all value query data h = Ok false /\
      q_nin value query data h = Ok true) /\
  (forall a data h, elems a h = [] -> q_all VNull (VArr a) data h = Ok false) /\
  (forall a b data h,
      elems a h = [] -> q_all (VArr b) (VArr a) data h = Ok true).
Proof.
  split; [exact q_nin_negb_q_in|].
  split; [reflexivity|].
  split; [|split].
  - intros value query data h Hv; unfold q_in, q_all, q_nin; rewrite Hv; auto.
  - reflexivity.
  - intros a b data h Ha; unfold q_all; simpl; rewrite Ha; reflexivity.
Qed.

(** The operators on the falsy value 0 with a null query, and [q$all] of
    null and of an array with an empty query. *)
Lemma q_nin_q_in_q_all_witness :
  truthy (VNum (Int 0)) = false /\
  q_in (VNum (Int 0)) VNull VUndef [] = Ok false /\
  q_all VNull (VArr 0) VUndef [[]] = Ok false /\
  q_all (VArr 1) (VArr 0) VUndef [[]; [VNum (Int 1)]] = Ok true.
Proof.
  destruct q_nin_q_in_q_all as (_ & _ & Hfalsy & Hall & Hvac).
  split; [reflexivity|]. split; [|split].
  - apply (Hfalsy (VNum (Int 0)) VNull VUndef []); reflexivity.
  - apply (Hall 0 VUndef [[]]); reflexivity.
  - apply (Hvac 0 1 VUndef [[]; [VNum (Int 1)]]); reflexivity.
Defined.

End QueryFacts.

(** ** [u$shift] and [u$pop] *)

Module ShiftPopFacts.
Import SchemaTypeArray.

Lemma slice_list_from (k : nat) (l : list val) :
  slice_list (Z.of_nat k) (Z.of_nat (length l)) l = drop k l.
Proof.
  unfold slice_list, rel_index.
  destruct (Z.ltb_spec (Z.of_nat k) 0); [lia|].
  destruct (Z.ltb_spec (Z.of_nat (length l)) 0); [lia|].
  rewrite !Nat2Z.id, Nat.min_id.
  destruct (Nat.min_spec k (length l)) as [[Hk ->]|[Hk ->]].
  - apply take_ge; rewrite length_drop; lia.
  - rewrite !drop_ge by lia; apply take_nil.
Qed.

Lemma slice_list_upto (e : Z) (l : list val) :
  (0 <= e <= Z.of_nat (length l))%Z ->
  slice_list 0 e l = take (Z.to_nat e) l.
Proof.
  intros He; unfold slice_list, rel_index; simpl.
  destruct (Z.ltb_spec e 0); [lia|].
  rewrite drop_0, Nat.sub_0_r, Nat.min_l by lia; reflexivity.
Qed.

(** A negative end index counts from the end of the array once more. *)
Lemma slice_list_upto_neg (e : Z) (l : list val) :
  (e < 0)%Z ->
  slice_list 0 e l = take (Z.to_nat (Z.of_nat (length l) + e)) l.
Proof.
  intros He; unfold slice_list, rel_index; simpl.
  destruct (Z.ltb_spec e 0); [|lia].
  rewrite drop_0, Nat.sub_0_r.
  f_equal; lia.
Qed.

Section on_array.
Variables (a : addr) (l : list val) (h : heap) (data : val).
Hypothesis Ha : h !! a = Some l.

Lemma elems_a : elems a h = l.
Proof using Ha. unfold elems; rewrite Ha; reflexivity. Qed.

Lemma u_shift_true :
  u_shift (VArr a) (CBool true) data h = alloc (drop 1 l) h.
Proof using Ha.
  unfold u_shift; simpl; rewrite elems_a.
  rewrite (slice_list_from 1); reflexivity.
Qed.

Lemma u_shift_pos (n : nat) :
  0 < n ->
  u_shift (VArr a) (CNum (Int (Z.of_nat n))) data h = alloc (drop n l) h.
Proof using Ha.
  intros Hn; unfold u_shift; simpl.
  destruct (Z.eqb_spec (Z.of_nat n) 0); [lia|]; simpl.
  destruct (Z.ltb_spec 0 (Z.of_nat n)); [|lia]; simpl.
  rewrite elems_a, slice_list_from; reflexivity.
Qed.

Lemma u_shift_neg (n : nat) :
  0 < n <= length l ->
  u_shift (VArr a) (CNum (Int (- Z.of_nat n))) data h
  = alloc (take (length l - n) l) h.
Proof using Ha.
  intros Hn; unfold u_shift; simpl.
  destruct (Z.eqb_spec (- Z.of_nat n) 0); [lia|]; simpl.
  destruct (Z.ltb_spec 0 (- Z.of_nat n)); [lia|].
  unfold bind, liftO; simpl; rewrite elems_a.
  rewrite slice_list_upto by lia.
  do 3 f_equal; lia.
Qed.

(** Past the length, the end index of the slice turns negative and
    counts from the end again. *)
Lemma u_shift_neg_over (n : nat) :
  length l < n ->
  u_shift (VArr a) (CNum (Int (- Z.of_nat n))) data h
  = alloc (take (2 * length l - n) l) h.
Proof using Ha.
  intros Hn; unfold u_shift; simpl.
  destruct (Z.eqb_spec (- Z.of_nat n) 0); [lia|]; simpl.
  destruct (Z.ltb_spec 0 (- Z.of_nat n)); [lia|].
  unfold bind, liftO; simpl; rewrite elems_a.
  rewrite slice_list_upto_neg by lia.
  do 3 f_equal; lia.
Qed.

Lemma u_pop_true :
  u_pop (VArr a) (CBool true) data h = alloc (take (length l - 1) l) h.
Proof using Ha.
  unfold u_pop, bind, liftO; simpl; rewrite elems_a.
  destruct l as [|x l'] eqn:El; [reflexivity|].
  rewrite slice_list_upto by (simpl length; lia).
  do 3 f_equal; simpl length; lia.
Qed.

Lemma u_pop_pos (n : nat) :
  0 < n <= length l ->
  u_pop (VArr a) (CNum (Int (Z.of_nat n))) data h
  = alloc (take (length l - n) l) h.
Proof using Ha.
  intros Hn; unfold u_pop, bind, liftO; simpl.
  destruct (Z.eqb_spec (Z.of_nat n) 0); [lia|]; simpl.
  destruct (Z.ltb_spec 0 (Z.of_nat n)); [|lia]; simpl.
  rewrite !elems_a, slice_list_upto by lia.
  do 3 f_equal; lia.
Qed.

Lemma u_pop_pos_over (n : nat) :
  length l < n ->
  u_pop (VArr a) (CNum (Int (Z.of_nat n))) data h
  = alloc (take (2 * length l - n) l) h.
Proof using Ha.
  intros Hn; unfold u_pop, bind, liftO; simpl.
  destruct (Z.eqb_spec (Z.of_nat n) 0); [lia|]; simpl.
  destruct (Z.ltb_spec 0 (Z.of_nat n)); [|lia]; simpl.
  rewrite !elems_a, slice_list_upto_neg by lia.
  do 3 f_equal; lia.
Qed.

Lemma u_pop_neg (n : nat) :
  0 < n ->
  u_pop (VArr a) (CNum (Int (- Z.of_nat n))) data h = alloc (drop n l) h.
Proof using Ha.
  intros Hn; unfold u_pop, bind, liftO; simpl.
  destruct (Z.eqb_spec (- Z.of_nat n) 0); [lia|]; simpl.
  destruct (Z.ltb_spec 0 (- Z.of_nat n)); [lia|]; simpl.
  rewrite !elems_a, Z.opp_involutive, slice_list_from; reflexivity.
Qed.

End on_array.

Local Notation "# n" := (VNum (Int n)) (at level 9, n at level 9, format "# n").

(** The two scenarios of the spec: [u$pop([1, 2, 3], true)] and
    [u$shift([1, 2, 3], 1)]. *)
Example u_pop_u_shift_scenarios :
  u_pop (VArr 0) (CBool true) VUndef [[#1; #2; #3]]
    = (Ok (VArr 1), [[#1; #2; #3]; [#1; #2]]) /\
  u_shift (VArr 0) (CNum (Int 1)) VUndef [[#1; #2; #3]]
    = (Ok (VArr 1), [[#1; #2; #3]; [#2; #3]]).
Proof. split; reflexivity. Qed.

(** C6, on a count past the length of the array.  Removing four elements
    from the back of [[1, 2, 3]] should leave nothing; [u$pop] with 4 and
    [u$shift] with -4 leave [[1, 2]], the end index of their slice having
    turned negative, while [u$shift] with 4 and [u$pop] with -4 leave the
    empty array. *)
Theorem u_pop_u_shift_past_length :
  u_pop (VArr 0) (CNum (Int 4)) VUndef [[#1; #2; #3]]
    = (Ok (VArr 1), [[#1; #2; #3]; [#1; #2]]) /\
  u_shift (VArr 0) (CNum (Int (-4))) VUndef [[#1; #2; #3]]
    = (Ok (VArr 1), [[#1; #2; #3]; [#1; #2]]) /\
  u_shift (VArr 0) (CNum (Int 4)) VUndef [[#1; #2; #3]]
    = (Ok (VArr 1), [[#1; #2; #3]; []]) /\
  u_pop (VArr 0) (CNum (Int (-4))) VUndef [[#1; #2; #3]]
    = (Ok (VArr 1), [[#1; #2; #3]; []]).
Proof. repeat split; reflexivity. Qed.

End ShiftPopFacts.

(** ** Search loops over the elements of two arrays *)

Lemma for_find_none {R} (n i : nat) (body : nat -> outcome (option R)) :
  for_find n i body = Ok None <->
  forall j, i <= j < i + n -> body j = Ok None.
Proof.
  revert i; induction n as [|n IH]; intros i; simpl.
  - split; [intros _ j Hj; lia|reflexivity].
  - split.
    + intros H j Hj.
      destruct (body i) as [[x|]|e] eqn:Hi; simpl in H; try discriminate.
      destruct (decide (j = i)) as [->|Hne]; [exact Hi|].
      apply (proj1 (IH (S i)) H); lia.
    + intros H; rewrite (H i) by lia; simpl.
      apply IH; intros j Hj; apply H; lia.
Qed.

(** The loop answers with the first index at which the body returns. *)
Lemma for_find_first {R} (n i k : nat) (body : nat -> outcome (option R)) o :
  i <= k < i + n ->
  (forall j, i <= j < k -> body j = Ok None) ->
  body k = o ->
  o <> Ok None ->
  for_find n i body = o.
Proof.
  revert i; induction n as [|n IH]; intros i Hk Hbefore Hat Hsome; [lia|].
  simpl. destruct (decide (k = i)) as [->|Hne].
  - rewrite Hat. destruct o as [[x|]|e]; simpl; congruence.
  - rewrite (Hbefore i) by lia; simpl.
    apply IH; [lia| |assumption|assumption].
    intros j Hj; apply Hbefore; lia.
Qed.

(** A loop whose body always returns normally returns normally. *)
Lemma for_find_returns {R} (n i : nat) (body : nat -> outcome (option R)) :
  (forall j, i <= j < i + n -> exists r, body j = Ok r) ->
  exists r, for_find n i body = Ok r.
Proof.
  revert i; induction n as [|n IH]; intros i H; simpl; [eauto|].
  destruct (H i) as [[x|] ->]; [lia| |]; simpl; [eauto|].
  apply IH; intros j Hj; apply H; lia.
Qed.

Lemma strict_eq_len (n m : option nat) :
  strict_eq (len_val n) (len_val m) = bool_decide (n = m).
Proof.
  destruct n as [n|], m as [m|]; simpl; try reflexivity.
  apply bool_decide_ext; split; [intros [= H]; f_equal; lia|congruence].
Qed.

Lemma get_index_lookup (a : addr) (h : heap) (i : nat) (x : val) :
  elems a h !! i = Some x -> get_index (VArr a) i h = x.
Proof. intros H; simpl; rewrite H; reflexivity. Qed.

(** ** [match] *)

Module MatchFacts.
Import SchemaTypeArray.

Section match_.
Variable this : t.
Local Abbreviation match_body := (Loops.match_body this).

Lemma match_falsy value query data h :
  truthy value = false \/ truthy query = false ->
  match_ this value query data h = Ok (strict_eq value query).
Proof. unfold match_; intros [-> | ->]; simpl; rewrite ?orb_true_r; reflexivity. Qed.

Lemma strict_eq_true a b : strict_eq a b = true -> a = b.
Proof.
  unfold strict_eq; intros H.
  destruct a as [| |?|[?|]|?], b as [| |?|[?|]|?];
    try discriminate; apply bool_decide_eq_true in H; exact H.
Qed.

Lemma match_arrays_unfold a b data h :
  match_ this (VArr a) (VArr b) data h =
    if bool_decide (length (elems a h) = length (elems b h)) then
      r <-? for_find (length (elems a h)) 0 (match_body a b data h) ;;
      match r with
      | Some b => Ok b
      | None => Ok true
      end
    else Ok false.
Proof.
  unfold match_; cbn [truthy negb orb get_length bindO bound default].
  rewrite (strict_eq_len (Some _) (Some _)).
  case_bool_decide as H1; case_bool_decide as H2; try reflexivity; congruence.
Qed.

Lemma match_loop_not_true a b data h n i :
  for_find n i (match_body a b data h) <> Ok (Some true).
Proof.
  revert i; induction n as [|n IH]; intros i; simpl; [discriminate|].
  unfold Loops.match_body at 1.
  destruct (st_match _ _ _ _ _) as [[|]|e]; simpl; try discriminate.
  apply IH.
Qed.

Lemma match_loop_none a b data h :
  length (elems a h) = length (elems b h) ->
  for_find (length (elems a h)) 0 (match_body a b data h) = Ok None <->
  forall i x y, elems a h !! i = Some x -> elems b h !! i = Some y ->
                st_match (child this) x y data h = Ok true.
Proof.
  intros Hlen; rewrite for_find_none; split.
  - intros H i x y Hx Hy.
    pose proof (lookup_lt_Some _ _ _ Hx) as Hi.
    specialize (H i ltac:(lia)); unfold Loops.match_body in H.
    rewrite (get_index_lookup _ _ _ _ Hx), (get_index_lookup _ _ _ _ Hy) in H.
    destruct (st_match _ _ _ _ _) as [[|]|e]; simpl in H; congruence.
  - intros H j Hj.
    destruct (lookup_lt_is_Some_2 (elems a h) j) as [x Hx]; [lia|].
    destruct (lookup_lt_is_Some_2 (elems b h) j) as [y Hy]; [lia|].
    unfold Loops.match_body.
    rewrite (get_index_lookup _ _ _ _ Hx), (get_index_lookup _ _ _ _ Hy).
    rewrite (H j x y Hx Hy); reflexivity.
Qed.

Lemma match_arrays a b data h :
  match_ this (VArr a) (VArr b) data h = Ok true <->
  Forall2 (fun x y => st_match (child this) x y data h = Ok true)
          (elems a h) (elems b h).
Proof.
  rewrite match_arrays_unfold, Forall2_same_length_lookup.
  case_bool_decide as Hlen.
  - rewrite <- (match_loop_none a b data h Hlen).
    pose proof (match_loop_not_true a b data h (length (elems a h)) 0) as Hno.
    destruct (for_find _ _ _) as [[[|]|]|e]; simpl; split;
      try congruence; try tauto; intros [_ ?]; congruence.
  - split; [discriminate|]. intros [Hl _]; congruence.
Qed.

(** When the child answers on every pair of elements, so does [match]. *)
Lemma match_arrays_returns a b data h :
  (forall x y, exists m, st_match (child this) x y data h = Ok m) ->
  exists m, match_ this (VArr a) (VArr b) data h = Ok m.
Proof.
  intros Hchild; rewrite match_arrays_unfold.
  case_bool_decide; [|eauto].
  destruct (for_find_returns (length (elems a h)) 0 (match_body a b data h))
    as [r ->].
  - intros j _; unfold Loops.match_body.
    destruct (Hchild (get_index (VArr a) j h) (get_index (VArr b) j h)) as [m ->].
    simpl; eauto.
  - destruct r; simpl; eauto.
Qed.

(** C8.  When both sides are falsy, [match] answers true only if they
    are the same value (null with null, undefined with undefined, never
    null with undefined); on two arrays it answers true exactly when the
    lengths are equal and the child's [match] answers true on the
    elements at each position, and it answers whenever the child does. *)
Theorem match_positional :
  (forall value query data h,
      truthy value = false -> truthy query = false ->
      match_ this value query data h = Ok (strict_eq value query) /\
      (strict_eq value query = true -> value = query)) /\
  (forall data h,
      match_ this VNull VNull data h = Ok true /\
      match_ this VUndef VUndef data h = Ok true /\
      match_ this VNull VUndef data h = Ok false /\
      match_ this VUndef VNull data h = Ok false) /\
  (forall a b data h,
      match_ this (VArr a) (VArr b) data h = Ok true <->
      length (elems a h) = length (elems b h) /\
      forall i x y,
        elems a h !! i = Some x -> elems b h !! i = Some y ->
        st_match (child this) x y data h = Ok true) /\
  (forall a b data h,
      (forall x y, exists m, st_match (child this) x y data h = Ok m) ->
      exists m, match_ this (VArr a) (VArr b) data h = Ok m).
Proof.
  split; [|split; [|split]].
  - intros value query data h Hv Hq; split.
    + apply match_falsy; left; exact Hv.
    + apply strict_eq_true.
  - intros data h; repeat split; reflexivity.
  - intros a b data h; rewrite match_arrays.
    apply Forall2_same_length_lookup.
  - apply match_arrays_returns.
Qed.

End match_.

(** [[1, 2]] against [[1, 2]], [[2, 1]] and [[1]] under a base child, and
    two falsy sides. *)
Lemma match_positional_witness :
  let this := {| options := {| required := false; default_ := ret VUndef;
                               validator := None |};
                 child := SchemaTypeBase.new |} in
  let h := [[VNum (Int 1); VNum (Int 2)]; [VNum (Int 1); VNum (Int 2)]] in
  match_ this (VNum (Int 0)) (VNum (Int 0)) VUndef h = Ok true /\
  (exists m, match_ this (VArr 1) (VArr 0) VUndef h = Ok m) /\
  match_ this (VArr 0) (VArr 1) VUndef h = Ok true.
Proof.
  intros this h.
  destruct (match_positional this) as (Hfalsy & _ & Harr & Hret).
  split; [|split].
  - apply (Hfalsy (VNum (Int 0)) (VNum (Int 0)) VUndef h); reflexivity.
  - apply (Hret 1 0 VUndef h). intros x y; eexists; reflexivity.
  - apply (Harr 0 1 VUndef h); split; [reflexivity|].
    intros [|[|i]] x y; simpl; intros [= <-] [= <-]; reflexivity.
Defined.

End MatchFacts.

(** ** [compare] *)

Module CompareFacts.
Import SchemaTypeArray.
Local Abbreviation lexicographic := Loops.lexicographic.

Lemma sign_opp c : SchemaTypeBase.sign (CompOpp c) = neg (SchemaTypeBase.sign c).
Proof. destruct c; reflexivity. Qed.

(** The order of the base type is antisymmetric and always answers. *)
Lemma base_compare_antisym x y h :
  exists r, SchemaTypeBase.compare x y h = Ok (Int r) /\
            SchemaTypeBase.compare y x h = Ok (Int (- r)).
Proof.
  unfold SchemaTypeBase.compare.
  destruct (SchemaTypeBase.rank x) as [kx vx], (SchemaTypeBase.rank y) as [ky vy].
  rewrite (Z.compare_antisym kx ky), (Z.compare_antisym vx vy).
  destruct (kx ?= ky)%Z; simpl; [destruct (vx ?= vy)%Z; simpl| |]; eauto.
Qed.

Lemma base_compare_c x y h :
  SchemaTypeBase.compare x y h = Ok (Int (Fixtures.base_c x y)).
Proof.
  unfold SchemaTypeBase.compare, Fixtures.base_c.
  destruct (SchemaTypeBase.rank x) as [kx vx], (SchemaTypeBase.rank y) as [ky vy].
  destruct (kx ?= ky)%Z; [destruct (vx ?= vy)%Z| |]; reflexivity.
Qed.

Lemma base_c_antisym x y : Fixtures.base_c y x = (- Fixtures.base_c x y)%Z.
Proof.
  unfold Fixtures.base_c.
  destruct (SchemaTypeBase.rank x) as [kx vx], (SchemaTypeBase.rank y) as [ky vy].
  destruct (Z.compare_spec kx ky), (Z.compare_spec ky kx); try lia;
    destruct (Z.compare_spec vx vy), (Z.compare_spec vy vx); lia.
Qed.

Lemma base_c_trans x y z :
  (Fixtures.base_c x y <= 0 -> Fixtures.base_c y z <= 0 ->
   Fixtures.base_c x z <= 0)%Z.
Proof.
  unfold Fixtures.base_c.
  destruct (SchemaTypeBase.rank x) as [kx vx], (SchemaTypeBase.rank y) as [ky vy],
           (SchemaTypeBase.rank z) as [kz vz].
  destruct (Z.compare_spec kx ky), (Z.compare_spec ky kz), (Z.compare_spec kx kz);
    try lia;
    destruct (Z.compare_spec vx vy), (Z.compare_spec vy vz), (Z.compare_spec vx vz);
    lia.
Qed.

Section compare.
Variable this : t.
Variable h : heap.
Local Abbreviation compare_body := (Loops.compare_body this h).

Lemma compare_arrays_unfold a b :
  compare this (VArr a) (VArr b) h =
    (r <-? for_find (Nat.min (length (elems a h)) (length (elems b h))) 0
             (compare_body (VArr a) (VArr b)) ;;
     match r with
     | Some result => Ok result
     | None => Ok (Int (Z.of_nat (length (elems a h)) - Z.of_nat (length (elems b h))))
     end).
Proof. reflexivity. Qed.

Lemma compare_falsy_l b :
  truthy b = true -> compare this VNull b h = Ok (Int (-1)).
Proof. intros Hb; unfold compare; simpl; rewrite Hb; reflexivity. Qed.

Lemma compare_first_nonzero a b k r :
  k < Nat.min (length (elems a h)) (length (elems b h)) ->
  (forall j, j < k ->
     st_compare (child this) (get_index (VArr a) j h) (get_index (VArr b) j h) h
     = Ok (Int 0)) ->
  st_compare (child this) (get_index (VArr a) k h) (get_index (VArr b) k h) h
    = Ok r ->
  nonzero r = true ->
  compare this (VArr a) (VArr b) h = Ok r.
Proof.
  intros Hk Hties Hr Hnz; rewrite compare_arrays_unfold.
  rewrite (for_find_first _ 0 k _ (Ok (Some r))); [reflexivity|lia| | |discriminate].
  - intros j Hj; unfold Loops.compare_body; rewrite Hties by lia; reflexivity.
  - unfold Loops.compare_body; rewrite Hr; simpl; rewrite Hnz; reflexivity.
Qed.

Lemma compare_all_tie a b :
  (forall j, j < Nat.min (length (elems a h)) (length (elems b h)) ->
     st_compare (child this) (get_index (VArr a) j h) (get_index (VArr b) j h) h
     = Ok (Int 0)) ->
  compare this (VArr a) (VArr b) h
  = Ok (Int (Z.of_nat (length (elems a h)) - Z.of_nat (length (elems b h)))).
Proof.
  intros Hties; rewrite compare_arrays_unfold.
  rewrite (proj2 (for_find_none _ 0 _)); [reflexivity|].
  intros j Hj; unfold Loops.compare_body; rewrite Hties by lia; reflexivity.
Qed.

(** The loop of [compare] computes the lexicographic comparison of the
    spec. *)
Lemma compare_loop_lexicographic a b la :
  forall lb pa pb,
    length pa = length pb ->
    elems a h = pa ++ la -> elems b h = pb ++ lb ->
    (r <-? for_find (Nat.min (length la) (length lb)) (length pa)
             (compare_body (VArr a) (VArr b)) ;;
     match r with
     | Some result => Ok result
     | None => Ok (Int (Z.of_nat (length (pa ++ la)) - Z.of_nat (length (pb ++ lb))))
     end)
    = lexicographic (fun x y => st_compare (child this) x y h) la lb.
Proof.
  induction la as [|x la IH]; intros lb pa pb Hlen Ha Hb.
  - simpl. rewrite !length_app, Hlen; simpl. destruct lb; simpl; do 2 f_equal; lia.
  - destruct lb as [|y lb].
    + simpl. rewrite !length_app, Hlen; simpl.
      do 2 f_equal; lia.
    + cbn [length Nat.min for_find Loops.lexicographic].
      unfold Loops.compare_body at 1; cbn [get_index].
      rewrite Ha, Hb.
      rewrite (list_lookup_middle pa la x (length pa)) by reflexivity.
      rewrite (list_lookup_middle pb lb y (length pa)) by exact Hlen.
      cbn [default from_option]; unfold id.
      destruct (st_compare (child this) x y h) as [r|e]; [|reflexivity].
      cbn [bindO]. destruct (nonzero r); [reflexivity|].
      specialize (IH lb (pa ++ [x]) (pb ++ [y])).
      rewrite (length_app pa), Nat.add_1_r, <- !app_assoc in IH.
      apply IH; [rewrite !length_app; simpl; lia|exact Ha|exact Hb].
Qed.

Lemma compare_arrays_lexicographic a b :
  compare this (VArr a) (VArr b) h
  = lexicographic (fun x y => st_compare (child this) x y h)
      (elems a h) (elems b h).
Proof.
  rewrite compare_arrays_unfold.
  apply (compare_loop_lexicographic a b (elems a h) (elems b h) [] []);
    reflexivity.
Qed.

Section ordering_child.
(** A child whose [compare] is an ordering: it answers with an integer, is
    antisymmetric, and is transitive in the sign of its answers. *)
Variable c : val -> val -> Z.
Hypothesis child_compare : forall x y, st_compare (child this) x y h = Ok (Int (c x y)).
Hypothesis c_antisym : forall x y, c y x = (- c x y)%Z.
Hypothesis c_trans : forall x y z, (c x y <= 0 -> c y z <= 0 -> c x z <= 0)%Z.

Lemma c_trans_lt_l x y z : (c x y < 0 -> c y z <= 0 -> c x z < 0)%Z.
Proof using c_antisym c_trans.
  intros H1 H2.
  destruct (Z_lt_le_dec (c x z) 0) as [|Hge]; [assumption|exfalso].
  pose proof (c_trans y z x H2) as H.
  rewrite (c_antisym x z), (c_antisym x y) in H. lia.
Qed.

Lemma c_trans_lt_r x y z : (c x y <= 0 -> c y z < 0 -> c x z < 0)%Z.
Proof using c_antisym c_trans.
  intros H1 H2.
  destruct (Z_lt_le_dec (c x z) 0) as [|Hge]; [assumption|exfalso].
  pose proof (c_trans z x y) as H.
  rewrite (c_antisym x z), (c_antisym y z) in H. lia.
Qed.

Lemma c_trans_zero x y z : c x y = 0%Z -> c y z = 0%Z -> c x z = 0%Z.
Proof using c_antisym c_trans.
  intros H1 H2.
  pose proof (c_trans x y z) as Hle.
  pose proof (c_trans z y x) as Hge.
  rewrite (c_antisym y z), (c_antisym x y), (c_antisym x z) in Hge. lia.
Qed.

Lemma lexicographic_trans la :
  forall lb lc ra rb,
    lexicographic (fun x y => st_compare (child this) x y h) la lb = Ok (Int ra) ->
    lexicographic (fun x y => st_compare (child this) x y h) lb lc = Ok (Int rb) ->
    (ra <= 0)%Z -> (rb <= 0)%Z ->
    exists rc,
      lexicographic (fun x y => st_compare (child this) x y h) la lc = Ok (Int rc) /\
      (rc <= 0)%Z.
Proof using child_compare c_antisym c_trans.
  induction la as [|x la IH]; intros lb lc ra rb Hab Hbc Hra Hrb.
  - destruct lc; simpl; eexists; (split; [reflexivity|lia]).
  - destruct lb as [|y lb]; [simpl in Hab; injection Hab as <-; lia|].
    destruct lc as [|z lc]; [simpl in Hbc; injection Hbc as <-; lia|].
    cbn [Loops.lexicographic] in *. rewrite child_compare in *. cbn [bindO nonzero] in *.
    destruct (Z.eqb_spec (c x y) 0) as [Hxy|Hxy];
      destruct (Z.eqb_spec (c y z) 0) as [Hyz|Hyz]; cbn [negb] in *.
    + rewrite (c_trans_zero x y z Hxy Hyz); simpl.
      apply (IH lb lc ra rb); assumption.
    + injection Hbc as <-.
      pose proof (c_trans_lt_r x y z ltac:(lia) ltac:(lia)).
      destruct (Z.eqb_spec (c x z) 0); [lia|]. simpl; eexists; split; [reflexivity|lia].
    + injection Hab as <-.
      pose proof (c_trans_lt_l x y z ltac:(lia) ltac:(lia)).
      destruct (Z.eqb_spec (c x z) 0); [lia|]. simpl; eexists; split; [reflexivity|lia].
    + injection Hab as <-. injection Hbc as <-.
      pose proof (c_trans_lt_l x y z ltac:(lia) ltac:(lia)).
      destruct (Z.eqb_spec (c x z) 0); [lia|]. simpl; eexists; split; [reflexivity|lia].
Qed.

Lemma compare_trans a b d ra rb :
  (isArray a = true \/ truthy a = false) ->
  (isArray b = true \/ truthy b = false) ->
  (isArray d = true \/ truthy d = false) ->
  compare this a b h = Ok (Int ra) -> compare this b d h = Ok (Int rb) ->
  (ra <= 0)%Z -> (rb <= 0)%Z ->
  exists rc, compare this a d h = Ok (Int rc) /\ (rc <= 0)%Z.
Proof using child_compare c_antisym c_trans.
  intros Ha Hb Hd Hab Hbd Hra Hrb.
  destruct (truthy a) eqn:Ta.
  - destruct Ha as [Ha|]; [|discriminate].
    destruct a as [| | | |a]; try discriminate.
    destruct (truthy b) eqn:Tb.
    + destruct Hb as [Hb|]; [|discriminate].
      destruct b as [| | | |b]; try discriminate.
      destruct (truthy d) eqn:Td.
      * destruct Hd as [Hd|]; [|discriminate].
        destruct d as [| | | |d]; try discriminate.
        rewrite compare_arrays_lexicographic in *.
        apply (lexicographic_trans (elems a h) (elems b h) (elems d h) ra rb); assumption.
      * unfold compare in Hbd; rewrite Tb, Td in Hbd; simpl in Hbd.
        injection Hbd as <-; lia.
    + unfold compare in Hab; rewrite Tb in Hab; simpl in Hab.
      injection Hab as <-; lia.
  - unfold compare; rewrite Ta. destruct (truthy d); eexists; (split; [reflexivity|lia]).
Qed.

End ordering_child.

Section antisymmetric_child.
Hypothesis child_antisym :
forall x y, exists r, st_compare (child this) x y h = Ok (Int r) /\
                      st_compare (child this) y x h = Ok (Int (- r)).

Lemma compare_loop_antisym a b n i :
(for_find n i (compare_body a b) = Ok None /\
 for_find n i (compare_body b a) = Ok None) \/
(exists r, for_find n i (compare_body a b) = Ok (Some (Int r)) /\
           for_find n i (compare_body b a) = Ok (Some (Int (- r)))).
Proof using child_antisym.
revert i; induction n as [|n IH]; intros i; simpl; [left; split; reflexivity|].
destruct (child_antisym (get_index a i h) (get_index b i h)) as (r & H1 & H2).
assert (E1 : compare_body a b i
             = Ok (if nonzero (Int r) then Some (Int r) else None))
  by (unfold Loops.compare_body; rewrite H1; reflexivity).
assert (E2 : compare_body b a i
             = Ok (if nonzero (Int (- r)) then Some (Int (- r)) else None))
  by (unfold Loops.compare_body; rewrite H2; reflexivity).
rewrite E1, E2; simpl.
destruct (Z.eqb_spec r 0) as [->|Hr]; simpl.
- apply IH.
- destruct (Z.eqb_spec (- r) 0); [lia|]; simpl. right; eauto.
Qed.

Lemma compare_antisym a b :
(isArray a = true \/ truthy a = false) ->
(isArray b = true \/ truthy b = false) ->
exists r, compare this a b h = Ok (Int r) /\
          compare this b a h = Ok (Int (- r)).
Proof using child_antisym.
intros Ha Hb.
destruct (truthy a) eqn:Ta, (truthy b) eqn:Tb.
- destruct Ha as [Ha|]; [|discriminate]. destruct Hb as [Hb|]; [|discriminate].
  destruct a as [| | | |a]; try discriminate.
  destruct b as [| | | |b]; try discriminate.
  rewrite !compare_arrays_unfold.
  rewrite (Nat.min_comm (length (elems b h))).
  destruct (compare_loop_antisym (VArr a) (VArr b)
              (Nat.min (length (elems a h)) (length (elems b h))) 0)
    as [[-> ->]|(r & -> & ->)]; simpl.
  + eexists; split; [reflexivity|]. do 2 f_equal; lia.
  + eauto.
- exists 1%Z; unfold compare; rewrite Ta, Tb; split; reflexivity.
- exists (-1)%Z; unfold compare; rewrite Ta, Tb; split; reflexivity.
- exists 0%Z; unfold compare; rewrite Ta, Tb; split; reflexivity.
Qed.

End antisymmetric_child.

(** C5.  With a child whose [compare] is antisymmetric, [compare] of the
    array type is antisymmetric on arrays and falsy values:
    [compare(a, b) == -compare(b, a)].  A null sorts before any present
    array ([compare(null, x)] is -1 for every truthy [x], and every
    array is truthy).  Two arrays are compared element by element with
    the child's [compare], the first result that is not zero being the
    answer; when all compared elements tie the answer is
    [lenA - lenB], negative when the first array is the shorter: the
    loop computes the lexicographic comparison.  The comparison always
    answers, and it is transitive when the child's is. *)
Theorem compare_lexicographic :
  ((forall x y, exists r, st_compare (child this) x y h = Ok (Int r) /\
                          st_compare (child this) y x h = Ok (Int (- r))) ->
   forall a b,
     (isArray a = true \/ truthy a = false) ->
     (isArray b = true \/ truthy b = false) ->
     exists r, compare this a b h = Ok (Int r) /\
               compare this b a h = Ok (Int (- r))) /\
  (forall x, truthy x = true -> compare this VNull x h = Ok (Int (-1))) /\
  (forall a, compare this VNull (VArr a) h = Ok (Int (-1))) /\
  (forall a b k r,
      k < Nat.min (length (elems a h)) (length (elems b h)) ->
      (forall j, j < k ->
         st_compare (child this) (get_index (VArr a) j h) (get_index (VArr b) j h) h
         = Ok (Int 0)) ->
      st_compare (child this) (get_index (VArr a) k h) (get_index (VArr b) k h) h
        = Ok r ->
      nonzero r = true ->
      compare this (VArr a) (VArr b) h = Ok r) /\
  (forall a b,
      (forall j, j < Nat.min (length (elems a h)) (length (elems b h)) ->
         st_compare (child this) (get_index (VArr a) j h) (get_index (VArr b) j h) h
         = Ok (Int 0)) ->
      exists r,
        compare this (VArr a) (VArr b) h = Ok (Int r) /\
        r = (Z.of_nat (length (elems a h)) - Z.of_nat (length (elems b h)))%Z /\
        (length (elems a h) < length (elems b h) -> (r < 0)%Z)) /\
  (forall a b,
      compare this (VArr a) (VArr b) h
      = lexicographic (fun x y => st_compare (child this) x y h)
          (elems a h) (elems b h)) /\
  (forall c : val -> val -> Z,
      (forall x y, st_compare (child this) x y h = Ok (Int (c x y))) ->
      (forall x y, c y x = (- c x y)%Z) ->
      (forall x y z, (c x y <= 0 -> c y z <= 0 -> c x z <= 0)%Z) ->
      forall a b d ra rb,
        (isArray a = true \/ truthy a = false) ->
        (isArray b = true \/ truthy b = false) ->
        (isArray d = true \/ truthy d = false) ->
        compare this a b h = Ok (Int ra) -> compare this b d h = Ok (Int rb) ->
        (ra <= 0)%Z -> (rb <= 0)%Z ->
        exists rc, compare this a d h = Ok (Int rc) /\ (rc <= 0)%Z).
Proof.
  split; [exact compare_antisym|].
  split; [exact compare_falsy_l|].
  split; [intros a; apply compare_falsy_l; reflexivity|].
  split; [exact compare_first_nonzero|].
  split; [|split; [exact compare_arrays_lexicographic|exact compare_trans]].
  intros a b Hties; eexists; split; [apply compare_all_tie, Hties|].
  split; [reflexivity|lia].
Qed.

End compare.

(** [compare([1, 2], [1, 2, 3])] and its converse, [compare(null, [])],
    [compare([1, 2], [1, 3])], and the three arrays [[1]], [[1, 2]] and
    [[2]] in a row, under a base child. *)
Lemma compare_lexicographic_witness :
  let h := [[VNum (Int 1); VNum (Int 2)];
            [VNum (Int 1); VNum (Int 2); VNum (Int 3)];
            [VNum (Int 1); VNum (Int 3)];
            [];
            [VNum (Int 1)];
            [VNum (Int 2)]] in
  (exists r, compare Fixtures.plain (VArr 0) (VArr 1) h = Ok (Int r) /\
             compare Fixtures.plain (VArr 1) (VArr 0) h = Ok (Int (- r))) /\
  (exists r, compare Fixtures.plain (VArr 0) (VArr 1) h = Ok (Int r) /\ (r < 0)%Z) /\
  compare Fixtures.plain (VArr 1) (VArr 0) h = Ok (Int 1) /\
  compare Fixtures.plain VNull (VArr 3) h = Ok (Int (-1)) /\
  compare Fixtures.plain (VArr 0) (VArr 2) h = Ok (Int (-1)) /\
  (exists r, compare Fixtures.plain (VArr 4) (VArr 5) h = Ok (Int r) /\ (r <= 0)%Z).
Proof.
  intros h.
  destruct (compare_lexicographic Fixtures.plain h)
    as (Hanti & Hnull & _ & Hfirst & Htie & _ & Htrans).
  split; [|split; [|split; [|split; [|split]]]].
  - apply Hanti; [|left; reflexivity|left; reflexivity].
    intros x y; apply base_compare_antisym.
  - destruct (Htie 0 1) as (r & Hr & _ & Hlt).
    + intros [|[|j]] Hj; [reflexivity|reflexivity|simpl in Hj; lia].
    + exists r; split; [exact Hr|apply Hlt; simpl; lia].
  - destruct (Htie 1 0) as (r & Hr & -> & _).
    + intros [|[|j]] Hj; [reflexivity|reflexivity|simpl in Hj; lia].
    + exact Hr.
  - apply (Hnull (VArr 3)); reflexivity.
  - apply (Hfirst 0 2 1 (Int (-1))); [simpl; lia| |reflexivity|reflexivity].
    intros [|j] Hj; [reflexivity|lia].
  - apply (Htrans Fixtures.base_c (fun x y => base_compare_c x y h)
             base_c_antisym base_c_trans
             (VArr 4) (VArr 0) (VArr 5) (-1)%Z (-1)%Z);
      try (left; reflexivity); try reflexivity; lia.
Defined.

End CompareFacts.

(** ** Loops over the elements of an array *)

Lemma write_at_middle (pre suf : list val) (x y : val) :
  write_at (length pre) y (pre ++ x :: suf) = pre ++ y :: suf.
Proof.
  unfold write_at. rewrite decide_True by (rewrite length_app; simpl; lia).
  rewrite insert_app_r_alt, Nat.sub_diag by lia; reflexivity.
Qed.

Lemma elems_lookup (a : addr) (h : heap) (l : list val) :
  h !! a = Some l -> elems a h = l.
Proof. intros H; unfold elems; rewrite H; reflexivity. Qed.

Lemma heap_insert_lookup (h : heap) (a : addr) (l l' : list val) :
  h !! a = Some l -> <[a := l']> h !! a = Some l'.
Proof. intros H; apply list_lookup_insert_eq, (lookup_lt_Some _ _ _ H). Qed.

Lemma elems_insert (a : addr) (h : heap) (l : list val) :
  a < length h -> elems a (<[a := l]> h) = l.
Proof. intros Ha; unfold elems; rewrite list_lookup_insert_eq by exact Ha; reflexivity. Qed.

Lemma heap_snoc_insert (h : heap) (l l' : list val) :
  <[length h := l']> (h ++ [l]) = h ++ [l'].
Proof. rewrite insert_app_r_alt, Nat.sub_diag by lia; reflexivity. Qed.

Module ElementLoops.
Import Loops.

(** *** The traversal [each] *)

Lemma each_length op data l h ys e h2 :
  each op data l h = (ys, e, h2) ->
  length ys <= length l /\
  (e = None -> length ys = length l) /\
  (forall err, e = Some err -> length ys < length l).
Proof.
  revert h ys e h2; induction l as [|x l IH]; intros h ys e h2; simpl.
  - intros [= <- <- <-]; simpl. split; [lia|]. split; [reflexivity|discriminate].
  - destruct (op x data h) as [[y|err] h1].
    + destruct (each op data l h1) as [[ys' e'] h2'] eqn:E.
      intros [= <- <- <-]. destruct (IH _ _ _ _ E) as (H1 & H2 & H3).
      simpl. split; [lia|]. split; [intros He; rewrite (H2 He); reflexivity|].
      intros err He; specialize (H3 err He); lia.
    + intros [= <- <- <-]; simpl. split; [lia|]. split; [discriminate|lia].
Qed.



Section pure.
(** A child that neither reads nor writes the store: on the given [data]
    its operation is the function [f]. *)
Variable op : val -> val -> M val.
Variable data : val.
Variable f : val -> outcome val.
Hypothesis op_pure : forall x h, op x data h = (f x, h).

Lemma local_pure a x : local_at a op data x.
Proof using op_pure.
  intros h l1 o h' _ Hop. rewrite op_pure in Hop |- *.
  injection Hop as <- <-. split; [lia|reflexivity].
Qed.

Lemma each_pure_ok l ys h :
  Forall2 (fun x y => f x = Ok y) l ys -> each op data l h = (ys, None, h).
Proof using op_pure.
  induction 1 as [|x y l ys Hx _ IH]; simpl; [reflexivity|].
  rewrite op_pure, Hx, IH; reflexivity.
Qed.

Lemma each_pure_throw l1 ys1 x l2 e h :
  Forall2 (fun x y => f x = Ok y) l1 ys1 -> f x = Throw e ->
  each op data (l1 ++ x :: l2) h = (ys1, Some e, h).
Proof using op_pure.
  intros HF Hx; induction HF as [|x1 y1 l1 ys1 Hx1 _ IH]; simpl.
  - rewrite op_pure, Hx; reflexivity.
  - rewrite op_pure, Hx1, IH; reflexivity.
Qed.

End pure.

Section loops.
Variable op : val -> val -> M val.
Variable data : val.
Local Abbreviation transfer := (Loops.transfer op data).

(** *** In place: [value[i] = child.op(value[i], data)] *)

Lemma inplace_step a pre x suf h o h' :
  a < length h -> local_at a op data x -> op x data h = (o, h') ->
  a < length h' /\
  transfer (VArr a) (VArr a) (length pre) (<[a := pre ++ x :: suf]> h)
  = match o with
    | Ok y => (Ok tt, <[a := pre ++ y :: suf]> h')
    | Throw e => (Throw e, <[a := pre ++ x :: suf]> h')
    end.
Proof.
  intros Ha Hloc Hop.
  destruct (Hloc h (pre ++ x :: suf) o h' Ha Hop) as [Hlen Hop'].
  split; [lia|].
  unfold Loops.transfer, bind, liftO; cbn [get_index].
  rewrite elems_insert, list_lookup_middle by (reflexivity || exact Ha).
  cbn [default from_option]; unfold id; rewrite Hop'.
  destruct o as [y|e]; [|reflexivity].
  unfold set_index, store. rewrite elems_insert by lia.
  rewrite write_at_middle, list_insert_insert_eq; reflexivity.
Qed.

(** The loop is the traversal of the elements that the array held when it
    began, each result stored at the index of its element. *)
Lemma inplace_each a suf :
  forall pre h ys e h2,
    a < length h ->
    (forall x, x ∈ suf -> local_at a op data x) ->
    each op data suf h = (ys, e, h2) ->
    for_loop (length suf) (length pre) (transfer (VArr a) (VArr a))
      (<[a := pre ++ suf]> h)
    = (ended tt e, <[a := pre ++ ys ++ drop (length ys) suf]> h2).
Proof.
  induction suf as [|x suf IH]; intros pre h ys e h2 Ha Hloc; simpl.
  - intros [= <- <- <-]; reflexivity.
  - destruct (op x data h) as [o h'] eqn:Hop.
    destruct (inplace_step a pre x suf h o h' Ha (Hloc x ltac:(left)) Hop)
      as [Ha' Hstep].
    unfold bind at 1; rewrite Hstep.
    destruct o as [y|err].
    + destruct (each op data suf h') as [[ys' e'] h2'] eqn:E.
      intros [= <- <- <-].
      specialize (IH (pre ++ [y]) h' ys' e' h2' Ha').
      rewrite (length_app pre), Nat.add_1_r, <- !app_assoc in IH.
      apply IH; [|exact E].
      intros x' Hin; apply Hloc; right; exact Hin.
    + intros [= <- <- <-]; reflexivity.
Qed.

(** *** Into a new array: [result[i] = child.op(value[i], data)] *)

Lemma local_keeps a x h o h' l :
  local_at a op data x -> op x data h = (o, h') -> h !! a = Some l ->
  h' !! a = Some l.
Proof.
  intros Hloc Hop Hl.
  pose proof (lookup_lt_Some _ _ _ Hl) as Ha.
  destruct (Hloc h l o h' Ha Hop) as [Hlen Hop'].
  rewrite (list_insert_id _ _ _ Hl), Hop in Hop'.
  injection Hop' as Hh'. rewrite Hh'.
  apply list_lookup_insert_eq; lia.
Qed.

Lemma copy_step a r l pre d dst x h o h' :
  a <> r -> r < length h ->
  local_at r op data x -> op x data h = (o, h') ->
  h !! a = Some l -> l !! length pre = Some x ->
  r < length h' /\
  transfer (VArr a) (VArr r) (length pre) (<[r := pre ++ d :: dst]> h)
  = match o with
    | Ok y => (Ok tt, <[r := pre ++ y :: dst]> h')
    | Throw e => (Throw e, <[r := pre ++ d :: dst]> h')
    end.
Proof.
  intros Hne Hr Hloc Hop Hl Hx.
  destruct (Hloc h (pre ++ d :: dst) o h' Hr Hop) as [Hlen Hop'].
  split; [lia|].
  unfold Loops.transfer, bind, liftO; cbn [get_index].
  unfold elems at 1. rewrite list_lookup_insert_ne, Hl by (intros ->; apply Hne; reflexivity).
  cbn [default from_option]; unfold id; rewrite Hx.
  cbn [default from_option]; unfold id; rewrite Hop'.
  destruct o as [y|e]; [|reflexivity].
  unfold set_index, store. rewrite elems_insert by lia.
  rewrite write_at_middle, list_insert_insert_eq; reflexivity.
Qed.

Lemma copy_each a r suf :
  a <> r ->
  forall lpre pre h ys e h2,
    r < length h ->
    length lpre = length pre ->
    h !! a = Some (lpre ++ suf) ->
    (forall x, x ∈ suf -> local_at a op data x /\ local_at r op data x) ->
    each op data suf h = (ys, e, h2) ->
    for_loop (length suf) (length pre) (transfer (VArr a) (VArr r))
      (<[r := pre ++ replicate (length suf) VUndef]> h)
    = (ended tt e,
       <[r := pre ++ ys ++ replicate (length suf - length ys) VUndef]> h2).
Proof.
  intros Hne; induction suf as [|x suf IH];
    intros lpre pre h ys e h2 Hr Hlen Hl Hloc; simpl.
  - intros [= <- <- <-]; reflexivity.
  - destruct (op x data h) as [o h'] eqn:Hop.
    destruct (Hloc x ltac:(left)) as [Hla Hlr].
    assert (Hx : (lpre ++ x :: suf) !! length pre = Some x)
      by (rewrite <- Hlen; apply list_lookup_middle; reflexivity).
    destruct (copy_step a r _ pre VUndef (replicate (length suf) VUndef)
                x h o h' Hne Hr Hlr Hop Hl Hx) as [Hr' Hstep].
    unfold bind at 1; rewrite Hstep.
    destruct o as [y|err].
    + destruct (each op data suf h') as [[ys' e'] h2'] eqn:E.
      intros [= <- <- <-].
      specialize (IH (lpre ++ [x]) (pre ++ [y]) h' ys' e' h2' Hr').
      rewrite (length_app pre), Nat.add_1_r, <- !app_assoc in IH.
      apply IH; [rewrite !length_app; simpl; lia| | |exact E].
      * apply (local_keeps a x h (Ok y) h' _ Hla Hop Hl).
      * intros x' Hin; apply Hloc; right; exact Hin.
    + intros [= <- <- <-]; reflexivity.
Qed.

End loops.
End ElementLoops.

Module ElementFacts.
Import Loops ElementLoops.

Lemma truthy_len (n : nat) :
  truthy (len_val (Some n)) = negb (bool_decide (n = 0)).
Proof. destruct n; reflexivity. Qed.

(** Every list of elements either passes the child as a whole or has a
    first element that the child rejects. *)
Lemma all_or_first_error (f : val -> outcome val) (l : list val) :
  (exists ys, Forall2 (fun x y => f x = Ok y) l ys) \/
  (exists l1 ys1 x l2 e,
      l = l1 ++ x :: l2 /\ Forall2 (fun x y => f x = Ok y) l1 ys1 /\
      f x = Throw e).
Proof.
  induction l as [|x l IH].
  - left; exists []; constructor.
  - destruct (f x) as [y|e] eqn:Hx.
    + destruct IH as [(ys & Hys)|(l1 & ys1 & x' & l2 & e & -> & H1 & Hx')].
      * left; exists (y :: ys); constructor; assumption.
      * right; exists (x :: l1), (y :: ys1), x', l2, e.
        split; [reflexivity|]. split; [constructor; assumption|assumption].
    + right; exists [], [], x, l, e. split; [reflexivity|].
      split; [constructor|assumption].
Qed.

Section any_child.
Variable op : val -> val -> M val.
Variable data : val.

(** In place, for a child that leaves the array alone while it works on
    its elements. *)
Lemma each_in_place_each a l h ys e h2 :
  h !! a = Some l ->
  (forall x, x ∈ l -> local_at a op data x) ->
  each op data l h = (ys, e, h2) ->
  each_in_place op data (VArr a) h
  = (ended (VArr a) e, <[a := ys ++ drop (length ys) l]> h2).
Proof.
  intros Ha Hloc Heach; unfold each_in_place, bind at 1, liftO.
  cbn [get_length]. rewrite !(elems_lookup _ _ _ Ha).
  cbn [default from_option bound]; unfold id.
  rewrite truthy_len.
  case_bool_decide as Hl; cbn [negb].
  - destruct l; [|discriminate]. simpl in Heach; injection Heach as <- <- <-.
    unfold ret; simpl. rewrite (list_insert_id _ _ _ Ha); reflexivity.
  - pose proof (inplace_each op data a l [] h ys e h2
                  (lookup_lt_Some _ _ _ Ha) Hloc Heach) as E.
    cbn [length app] in E. rewrite (list_insert_id _ _ _ Ha) in E.
    unfold bind; rewrite E. destruct e; reflexivity.
Qed.

(** Into a new array, for a child that leaves the array and the new array
    alone. *)
Lemma each_into_new_each a l h ys e h2 :
  h !! a = Some l ->
  (forall x, x ∈ l ->
     local_at a op data x /\ local_at (length h) op data x) ->
  each op data l (h ++ [replicate (length l) VUndef]) = (ys, e, h2) ->
  each_into_new op data (VArr a) h
  = (ended (VArr (length h)) e,
     <[length h := ys ++ replicate (length l - length ys) VUndef]> h2).
Proof.
  intros Ha Hloc Heach; unfold each_into_new; cbn [truthy negb].
  unfold bind at 1, liftO.
  cbn [get_length]. rewrite !(elems_lookup _ _ _ Ha).
  cbn [default from_option bound]; unfold id.
  rewrite truthy_len.
  pose proof (lookup_lt_Some _ _ _ Ha) as Hlt.
  case_bool_decide as Hl; cbn [negb].
  - destruct l; [|discriminate]. simpl in Heach; injection Heach as <- <- <-.
    simpl. rewrite heap_snoc_insert; reflexivity.
  - unfold bind at 1, alloc.
    pose proof (copy_each op data a (length h) l ltac:(lia) [] []
                  (h ++ [replicate (length l) VUndef]) ys e h2) as E.
    cbn [length app] in E.
    rewrite heap_snoc_insert in E.
    unfold bind; rewrite E; [destruct e; reflexivity| |reflexivity| |exact Hloc|exact Heach].
    + rewrite length_app; simpl; lia.
    + rewrite lookup_app_l by lia; exact Ha.
Qed.

Lemma each_into_new_falsy v h :
  truthy v = false -> each_into_new op data v h = (Ok v, h).
Proof. intros Hv; unfold each_into_new; rewrite Hv; reflexivity. Qed.

(** On a boolean or a number that is truthy the length is undefined and
    the result is a new empty array. *)
Lemma each_into_new_primitive v h :
  truthy v = true -> isArray v = false ->
  each_into_new op data v h = (Ok (VArr (length h)), h ++ [[]]).
Proof.
  intros Hv Harr; unfold each_into_new; rewrite Hv; cbn [negb].
  destruct v as [| |b|n|a]; try discriminate; reflexivity.
Qed.

End any_child.

Section pure_child.
Variable op : val -> val -> M val.
Variable data : val.
Variable f : val -> outcome val.
Hypothesis op_pure : forall x h, op x data h = (f x, h).

Lemma each_in_place_ok a l ys h :
  h !! a = Some l ->
  Forall2 (fun x y => f x = Ok y) l ys ->
  each_in_place op data (VArr a) h = (Ok (VArr a), <[a := ys]> h).
Proof using op_pure.
  intros Ha HF.
  rewrite (each_in_place_each op data a l h ys None h Ha).
  - rewrite <- (Forall2_length _ _ _ HF), drop_all, app_nil_r; reflexivity.
  - intros x _; apply (local_pure op data f op_pure).
  - apply (each_pure_ok op data f op_pure), HF.
Qed.

Lemma each_in_place_throw a l1 ys1 x l2 e h :
  h !! a = Some (l1 ++ x :: l2) ->
  Forall2 (fun x y => f x = Ok y) l1 ys1 ->
  f x = Throw e ->
  each_in_place op data (VArr a) h = (Throw e, <[a := ys1 ++ x :: l2]> h).
Proof using op_pure.
  intros Ha HF Hx.
  rewrite (each_in_place_each op data a _ h ys1 (Some e) h Ha).
  - rewrite drop_app_length' by (symmetry; apply (Forall2_length _ _ _ HF)).
    reflexivity.
  - intros x' _; apply (local_pure op data f op_pure).
  - apply (each_pure_throw op data f op_pure); assumption.
Qed.

Lemma each_into_new_ok a l ys h :
  h !! a = Some l ->
  Forall2 (fun x y => f x = Ok y) l ys ->
  each_into_new op data (VArr a) h = (Ok (VArr (length h)), h ++ [ys]).
Proof using op_pure.
  intros Ha HF.
  rewrite (each_into_new_each op data a l h ys None
             (h ++ [replicate (length l) VUndef]) Ha).
  - rewrite <- (Forall2_length _ _ _ HF), Nat.sub_diag, app_nil_r, heap_snoc_insert.
    reflexivity.
  - intros x _; split; apply (local_pure op data f op_pure).
  - apply (each_pure_ok op data f op_pure), HF.
Qed.

Lemma each_into_new_throw a l1 ys1 x l2 e h :
  h !! a = Some (l1 ++ x :: l2) ->
  Forall2 (fun x y => f x = Ok y) l1 ys1 ->
  f x = Throw e ->
  each_into_new op data (VArr a) h
  = (Throw e, h ++ [ys1 ++ replicate (S (length l2)) VUndef]).
Proof using op_pure.
  intros Ha HF Hx.
  rewrite (each_into_new_each op data a _ h ys1 (Some e)
             (h ++ [replicate (length (l1 ++ x :: l2)) VUndef]) Ha).
  - rewrite heap_snoc_insert, length_app, <- (Forall2_length _ _ _ HF); simpl.
    replace (length l1 + S (length l2) - length l1) with (S (length l2)) by lia.
    reflexivity.
  - intros x' _; split; apply (local_pure op data f op_pure).
  - apply (each_pure_throw op data f op_pure); assumption.
Qed.

(** An element loop with such a child leaves every other array alone: array
    types nest. *)
Lemma each_in_place_local a b :
  a <> b -> local_at a (fun x d => each_in_place op d x) data (VArr b).
Proof using op_pure.
  intros Hne h l1 o h' Ha Hrun.
  destruct (h !! b) as [l|] eqn:Hb.
  - assert (Hb' : <[a := l1]> h !! b = Some l)
      by (rewrite list_lookup_insert_ne by exact Hne; exact Hb).
    destruct (all_or_first_error f l)
      as [(ys & HF)|(k1 & ys1 & x & k2 & e & -> & HF & Hx)].
    + rewrite (each_in_place_ok b l ys h Hb HF) in Hrun.
      rewrite (each_in_place_ok b l ys _ Hb' HF).
      injection Hrun as <- <-. rewrite length_insert.
      split; [lia|]. rewrite list_insert_insert_ne by (intros ->; apply Hne; reflexivity).
      reflexivity.
    + rewrite (each_in_place_throw b k1 ys1 x k2 e h Hb HF Hx) in Hrun.
      rewrite (each_in_place_throw b k1 ys1 x k2 e _ Hb' HF Hx).
      injection Hrun as <- <-. rewrite length_insert.
      split; [lia|]. rewrite list_insert_insert_ne by (intros ->; apply Hne; reflexivity).
      reflexivity.
  - assert (Hb' : <[a := l1]> h !! b = None)
      by (rewrite list_lookup_insert_ne by exact Hne; exact Hb).
    unfold each_in_place, bind, liftO in Hrun |- *; cbn [get_length] in Hrun |- *.
    unfold elems in Hrun |- *; rewrite Hb in Hrun; rewrite Hb'.
    simpl in Hrun |- *. injection Hrun as <- <-. split; [lia|reflexivity].
Qed.

Lemma each_into_new_local a b :
  a <> b -> local_at a (fun x d => each_into_new op d x) data (VArr b).
Proof using op_pure.
  intros Hne h l1 o h' Ha Hrun.
  destruct (h !! b) as [l|] eqn:Hb.
  - assert (Hb' : <[a := l1]> h !! b = Some l)
      by (rewrite list_lookup_insert_ne by exact Hne; exact Hb).
    destruct (all_or_first_error f l)
      as [(ys & HF)|(k1 & ys1 & x & k2 & e & -> & HF & Hx)].
    + rewrite (each_into_new_ok b l ys h Hb HF) in Hrun.
      rewrite (each_into_new_ok b l ys _ Hb' HF).
      injection Hrun as <- <-. rewrite length_insert, length_app.
      split; [lia|]. rewrite insert_app_l by exact Ha. reflexivity.
    + rewrite (each_into_new_throw b k1 ys1 x k2 e h Hb HF Hx) in Hrun.
      rewrite (each_into_new_throw b k1 ys1 x k2 e _ Hb' HF Hx).
      injection Hrun as <- <-. rewrite length_app.
      split; [lia|]. rewrite insert_app_l by exact Ha. reflexivity.
  - assert (Hb' : <[a := l1]> h !! b = None)
      by (rewrite list_lookup_insert_ne by exact Hne; exact Hb).
    unfold each_into_new, bind, liftO in Hrun |- *; cbn [get_length truthy negb] in Hrun |- *.
    unfold elems in Hrun |- *; rewrite Hb in Hrun; rewrite Hb'.
    simpl in Hrun |- *. unfold alloc in Hrun |- *.
    injection Hrun as <- <-. rewrite length_insert, length_app.
    split; [lia|]. rewrite insert_app_l by exact Ha. reflexivity.
Qed.

End pure_child.
End ElementFacts.

(** ** [parse] and [value] *)

Module ParseFacts.
Import SchemaTypeArray Loops Fixtures ElementFacts.

Lemma parse_unfold this v data :
  parse this v data = each_into_new (st_parse (child this)) data v.
Proof. reflexivity. Qed.

Lemma value_unfold this v data :
  value this v data = each_into_new (st_value (child this)) data v.
Proof. reflexivity. Qed.

(** An array type whose child is a function of the element parses the array
    at [b] without touching any other array. *)
Lemma parse_local this data f a b :
  (forall x h, st_parse (child this) x data h = (f x, h)) ->
  a <> b -> local_at a (st_parse (contract this)) data (VArr b).
Proof. intros Hpure Hne; apply (each_into_new_local _ data f Hpure a b Hne). Qed.

Lemma value_local this data f a b :
  (forall x h, st_value (child this) x data h = (f x, h)) ->
  a <> b -> local_at a (st_value (contract this)) data (VArr b).
Proof. intros Hpure Hne; apply (each_into_new_local _ data f Hpure a b Hne). Qed.

Section parse_value.
Variable this : t.
Variable data : val.

(** C1, as the code has it.  A falsy input (null, undefined, false, 0,
    NaN) is returned as it is, null as null and undefined as undefined.
    An array gives a new array, filled in index order with the child's
    [parse] (respectively [value]) of the elements: with a child that
    leaves both arrays alone, the loop is the traversal [each] of the
    elements; with a child that is a function of the element, the new array
    holds the image of each element, and it is a new empty array for the
    empty array. *)
Theorem parse_value_elementwise :
  (forall v h,
      truthy v = false ->
      parse this v data h = (Ok v, h) /\ value this v data h = (Ok v, h)) /\
  (forall a l h ys e h2,
      h !! a = Some l ->
      (forall x, x ∈ l ->
         local_at a (st_parse (child this)) data x /\
         local_at (length h) (st_parse (child this)) data x) ->
      each (st_parse (child this)) data l (h ++ [replicate (length l) VUndef])
        = (ys, e, h2) ->
      parse this (VArr a) data h
      = (ended (VArr (length h)) e,
         <[length h := ys ++ replicate (length l - length ys) VUndef]> h2)) /\
  (forall a l h ys e h2,
      h !! a = Some l ->
      (forall x, x ∈ l ->
         local_at a (st_value (child this)) data x /\
         local_at (length h) (st_value (child this)) data x) ->
      each (st_value (child this)) data l (h ++ [replicate (length l) VUndef])
        = (ys, e, h2) ->
      value this (VArr a) data h
      = (ended (VArr (length h)) e,
         <[length h := ys ++ replicate (length l - length ys) VUndef]> h2)) /\
  (forall f a l ys h,
      (forall x h, st_parse (child this) x data h = (f x, h)) ->
      h !! a = Some l ->
      Forall2 (fun x y => f x = Ok y) l ys ->
      parse this (VArr a) data h = (Ok (VArr (length h)), h ++ [ys])) /\
  (forall f a l ys h,
      (forall x h, st_value (child this) x data h = (f x, h)) ->
      h !! a = Some l ->
      Forall2 (fun x y => f x = Ok y) l ys ->
      value this (VArr a) data h = (Ok (VArr (length h)), h ++ [ys])).
Proof.
  split; [|split; [|split; [|split]]].
  - intros v h Hv; split.
    + rewrite parse_unfold; apply each_into_new_falsy; assumption.
    + rewrite value_unfold; apply each_into_new_falsy; assumption.
  - intros a l h ys e h2 Ha Hloc Heach; rewrite parse_unfold.
    apply each_into_new_each; assumption.
  - intros a l h ys e h2 Ha Hloc Heach; rewrite value_unfold.
    apply each_into_new_each; assumption.
  - intros f a l ys h Hpure Ha HF; rewrite parse_unfold.
    apply (each_into_new_ok _ _ f Hpure a l ys h Ha HF).
  - intros f a l ys h Hpure Ha HF; rewrite value_unfold.
    apply (each_into_new_ok _ _ f Hpure a l ys h Ha HF).
Qed.

End parse_value.

Lemma plain_new :
  new {| u_required := false; u_default := None; u_validator := None;
         u_child := None |} [] = (Ok plain, [[]]).
Proof. reflexivity. Qed.

(** [parse(null)] and [value(undefined)], [parse([1, 2])] and
    [value([1, 2])], and the parse and the value of [[[1], [2, 3]]] by an
    array type of arrays. *)
Lemma parse_value_elementwise_witness :
  let h1 := [[]; [VNum (Int 1); VNum (Int 2)]] in
  let h2 := [[]; [VArr 2; VArr 3]; [VNum (Int 1)]; [VNum (Int 2); VNum (Int 3)]] in
  parse plain VNull VUndef [[]] = (Ok VNull, [[]]) /\
  value plain VUndef VUndef [[]] = (Ok VUndef, [[]]) /\
  parse plain (VArr 1) VUndef h1 = (Ok (VArr 2), h1 ++ [[VNum (Int 1); VNum (Int 2)]]) /\
  value plain (VArr 1) VUndef h1 = (Ok (VArr 2), h1 ++ [[VNum (Int 1); VNum (Int 2)]]) /\
  parse nested (VArr 1) VUndef h2
  = (Ok (VArr 4),
     h2 ++ [[VArr 5; VArr 6]; [VNum (Int 1)]; [VNum (Int 2); VNum (Int 3)]]) /\
  value nested (VArr 1) VUndef h2
  = (Ok (VArr 4),
     h2 ++ [[VArr 5; VArr 6]; [VNum (Int 1)]; [VNum (Int 2); VNum (Int 3)]]).
Proof.
  intros h1 h2.
  destruct (parse_value_elementwise plain VUndef)
    as (Hfalsy & _ & _ & Hparse & Hvalue).
  destruct (parse_value_elementwise nested VUndef) as (_ & Hnp & Hnv & _).
  assert (Hpp : forall x h, st_parse (child plain) x VUndef h = (Ok x, h))
    by reflexivity.
  assert (Hpv : forall x h, st_value (child plain) x VUndef h = (Ok x, h))
    by reflexivity.
  split; [apply (Hfalsy VNull [[]]); reflexivity|].
  split; [apply (Hfalsy VUndef [[]]); reflexivity|].
  split; [|split; [|split]].
  - apply (Hparse Ok 1 [VNum (Int 1); VNum (Int 2)] [VNum (Int 1); VNum (Int 2)] h1);
      [reflexivity|reflexivity|repeat constructor].
  - apply (Hvalue Ok 1 [VNum (Int 1); VNum (Int 2)] [VNum (Int 1); VNum (Int 2)] h1);
      [reflexivity|reflexivity|repeat constructor].
  - apply (Hnp 1 [VArr 2; VArr 3] h2 [VArr 5; VArr 6] None
             (h2 ++ [[VUndef; VUndef]; [VNum (Int 1)]; [VNum (Int 2); VNum (Int 3)]]));
      [reflexivity| |reflexivity].
    intros x Hx.
    apply elem_of_cons in Hx as [->|Hx];
      [|apply list_elem_of_singleton in Hx as ->];
      split; apply (parse_local plain VUndef Ok _ _ Hpp); discriminate.
  - apply (Hnv 1 [VArr 2; VArr 3] h2 [VArr 5; VArr 6] None
             (h2 ++ [[VUndef; VUndef]; [VNum (Int 1)]; [VNum (Int 2); VNum (Int 3)]]));
      [reflexivity| |reflexivity].
    intros x Hx.
    apply elem_of_cons in Hx as [->|Hx];
      [|apply list_elem_of_singleton in Hx as ->];
      split; apply (value_local plain VUndef Ok _ _ Hpv); discriminate.
Defined.

(** C1 as stated fails: [parse] and [value] of null are null, and of
    undefined are undefined, not an empty array. *)
Lemma parse_value_null_counterexample :
  parse plain VNull VUndef [[]] = (Ok VNull, [[]]) /\
  value plain VNull VUndef [[]] = (Ok VNull, [[]]) /\
  parse plain VUndef VUndef [[]] = (Ok VUndef, [[]]) /\
  value plain VUndef VUndef [[]] = (Ok VUndef, [[]]) /\
  ~ (exists a h', parse plain VNull VUndef [[]] = (Ok (VArr a), h')).
Proof.
  repeat split; try reflexivity.
  intros (a & h' & H); discriminate H.
Qed.

End ParseFacts.

(** ** [cast] *)

Module CastFacts.
Import SchemaTypeArray Loops Fixtures ElementFacts.

Lemma cast_unfold this value_ data :
  cast this value_ data =
    (value <- SchemaTypeBase.cast (options this) value_ data ;;
     if is_nullish value then ret value else
     value <- (if negb (isArray value) then alloc [value] else ret value) ;;
     each_in_place (st_cast (child this)) data value).
Proof. reflexivity. Qed.

Lemma base_cast_present o v data h :
  v <> VUndef -> SchemaTypeBase.cast o v data h = (Ok v, h).
Proof. intros Hv; destruct v; try reflexivity; contradiction. Qed.

(** An absent input stands for the configured default. *)
Lemma cast_undefined this data h d h1 :
  default_ (options this) h = (Ok d, h1) -> d <> VUndef ->
  cast this VUndef data h = cast this d data h1.
Proof.
  intros Hd Hne; rewrite !cast_unfold; unfold bind at 1 3.
  rewrite (base_cast_present _ d data h1 Hne); simpl; rewrite Hd; reflexivity.
Qed.

Lemma cast_array_direct this data a h :
  cast this (VArr a) data h = each_in_place (st_cast (child this)) data (VArr a) h.
Proof. reflexivity. Qed.

(** An array type whose child is a function of the element casts the array
    at [b] without touching any other array. *)
Lemma cast_local this data f a b :
  (forall x h, st_cast (child this) x data h = (f x, h)) ->
  a <> b -> local_at a (st_cast (contract this)) data (VArr b).
Proof. intros Hpure Hne; apply (each_in_place_local _ data f Hpure a b Hne). Qed.

Section cast.
Variable this : t.
Variable data : val.

Lemma cast_array a l h ys e h2 :
  h !! a = Some l ->
  (forall x, x ∈ l -> local_at a (st_cast (child this)) data x) ->
  each (st_cast (child this)) data l h = (ys, e, h2) ->
  cast this (VArr a) data h
  = (ended (VArr a) e, <[a := ys ++ drop (length ys) l]> h2).
Proof. intros Ha Hloc Heach; rewrite cast_array_direct; apply each_in_place_each; assumption. Qed.

Lemma cast_wrap v h ys e h2 :
  is_nullish v = false -> isArray v = false ->
  local_at (length h) (st_cast (child this)) data v ->
  each (st_cast (child this)) data [v] (h ++ [[v]]) = (ys, e, h2) ->
  cast this v data h
  = (ended (VArr (length h)) e, <[length h := ys ++ drop (length ys) [v]]> h2).
Proof.
  intros Hnull Harr Hloc Heach; rewrite cast_unfold; unfold bind at 1.
  rewrite base_cast_present by (intros ->; discriminate).
  rewrite Hnull; unfold bind at 1; rewrite Harr; cbn [negb alloc].
  apply each_in_place_each; [apply list_lookup_middle; reflexivity| |exact Heach].
  intros x Hx; apply list_elem_of_singleton in Hx as ->; exact Hloc.
Qed.

(** C3, as the code has it.  A null input is returned as null.  An
    absent input is replaced by the configured default, to which the
    rules apply in turn.  A present input that is not an array is
    wrapped into a new array of one element, which is then cast by the
    child.  An empty array is returned as it is, and an array has every
    element replaced, in place and in index order, by the child's [cast]
    of it: with a child that leaves the array alone, the loop is the
    traversal [each] of the elements; with a child that is a function of
    the element, the array ends holding the image of each element. *)
Theorem cast_wraps_and_casts_in_place :
  (forall h, cast this VNull data h = (Ok VNull, h)) /\
  (forall h d h1,
      default_ (options this) h = (Ok d, h1) -> d <> VUndef ->
      cast this VUndef data h = cast this d data h1) /\
  (forall v h ys e h2,
      is_nullish v = false -> isArray v = false ->
      local_at (length h) (st_cast (child this)) data v ->
      each (st_cast (child this)) data [v] (h ++ [[v]]) = (ys, e, h2) ->
      cast this v data h
      = (ended (VArr (length h)) e,
         <[length h := ys ++ drop (length ys) [v]]> h2)) /\
  (forall a h,
      h !! a = Some [] -> cast this (VArr a) data h = (Ok (VArr a), h)) /\
  (forall a l h ys e h2,
      h !! a = Some l ->
      (forall x, x ∈ l -> local_at a (st_cast (child this)) data x) ->
      each (st_cast (child this)) data l h = (ys, e, h2) ->
      cast this (VArr a) data h
      = (ended (VArr a) e, <[a := ys ++ drop (length ys) l]> h2)) /\
  (forall f,
      (forall x h, st_cast (child this) x data h = (f x, h)) ->
      (forall v y h,
          is_nullish v = false -> isArray v = false -> f v = Ok y ->
          cast this v data h = (Ok (VArr (length h)), h ++ [[y]])) /\
      (forall a l ys h,
          h !! a = Some l ->
          Forall2 (fun x y => f x = Ok y) l ys ->
          cast this (VArr a) data h = (Ok (VArr a), <[a := ys]> h))).
Proof.
  split; [reflexivity|].
  split; [apply cast_undefined|].
  split; [exact cast_wrap|].
  split; [|split; [exact cast_array|]].
  - intros a h Ha.
    rewrite (cast_array a [] h [] None h Ha); [|intros x Hx; inversion Hx|reflexivity].
    simpl; rewrite (list_insert_id _ _ _ Ha); reflexivity.
  - intros f Hpure; split.
    + intros v y h Hnull Harr Hy.
      rewrite (cast_wrap v h [y] None (h ++ [[v]]) Hnull Harr).
      * simpl; rewrite heap_snoc_insert; reflexivity.
      * apply (ElementLoops.local_pure _ data f Hpure).
      * simpl; rewrite Hpure, Hy; reflexivity.
    + intros a l ys h Ha HF; rewrite cast_array_direct.
      apply (each_in_place_ok _ data f Hpure a l ys h Ha HF).
Qed.

End cast.

(** Casting 5, the empty default array, [[1, 2]] and undefined through an
    array type with the default child, and [[7, [1]]] through an array type
    of arrays. *)
Lemma cast_wraps_and_casts_in_place_witness :
  cast plain (VNum (Int 5)) VUndef [[]] = (Ok (VArr 1), [[]; [VNum (Int 5)]]) /\
  cast plain (VArr 0) VUndef [[]] = (Ok (VArr 0), [[]]) /\
  cast plain (VArr 1) VUndef [[]; [VNum (Int 1); VNum (Int 2)]]
    = (Ok (VArr 1), [[]; [VNum (Int 1); VNum (Int 2)]]) /\
  cast plain VUndef VUndef [[]] = cast plain (VArr 0) VUndef [[]] /\
  cast nested (VArr 1) VUndef [[]; [VArr 2; VArr 3]; [VNum (Int 1)]; []]
    = (Ok (VArr 1), [[]; [VArr 2; VArr 3]; [VNum (Int 1)]; []]) /\
  cast plain (VBool true) VUndef [[]] = (Ok (VArr 1), [[]; [VBool true]]).
Proof.
  destruct (cast_wraps_and_casts_in_place plain VUndef)
    as (_ & Hdef & Hwrapg & Hempty & _ & Hpure).
  assert (Hc : forall x h, st_cast (child plain) x VUndef h = (Ok x, h))
    by (intros [| | | |] ?; reflexivity).
  destruct (Hpure Ok Hc) as (Hwrap & Harr).
  destruct (cast_wraps_and_casts_in_place nested VUndef)
    as (_ & _ & _ & _ & Hnested & _).
  split; [apply (Hwrap (VNum (Int 5)) (VNum (Int 5)) [[]]); reflexivity|].
  split; [apply (Hempty 0 [[]]); reflexivity|].
  split; [|split; [|split]].
  4:{ apply (Hwrapg (VBool true) [[]] [VBool true] None [[]; [VBool true]]);
        [reflexivity|reflexivity| |reflexivity].
      apply (ElementLoops.local_pure _ VUndef Ok Hc). }
  - apply (Harr 1 [VNum (Int 1); VNum (Int 2)] [VNum (Int 1); VNum (Int 2)]
             [[]; [VNum (Int 1); VNum (Int 2)]]); [reflexivity|].
    repeat constructor.
  - apply (Hdef [[]] (VArr 0) [[]]); [reflexivity|discriminate].
  - apply (Hnested 1 [VArr 2; VArr 3]
             [[]; [VArr 2; VArr 3]; [VNum (Int 1)]; []]
             [VArr 2; VArr 3] None
             [[]; [VArr 2; VArr 3]; [VNum (Int 1)]; []]);
      [reflexivity| |reflexivity].
    intros x Hx.
    apply elem_of_cons in Hx as [->|Hx];
      [|apply list_elem_of_singleton in Hx as ->];
      apply (cast_local plain VUndef Ok _ _ Hc); discriminate.
Defined.

(** C3 as stated fails on an absent input, which is neither null nor an
    array: it is not wrapped into an array of one element; the result is
    the default, here the empty array made by the constructor. *)
Lemma cast_undefined_counterexample :
  new {| u_required := false; u_default := None; u_validator := None;
         u_child := None |} [] = (Ok plain, [[]]) /\
  cast plain VUndef VUndef [[]] = (Ok (VArr 0), [[]]) /\
  elems 0 [[]] = [] /\
  ~ (exists y, cast plain VUndef VUndef [[]] = (Ok (VArr 1), [[]; [y]])).
Proof.
  repeat split; try reflexivity.
  intros (y & H); discriminate H.
Qed.

(** In an array type of arrays, an element that is not an array is wrapped
    by the inner type, and the outer array then holds the new array. *)
Example cast_nested :
  cast nested (VArr 1) VUndef [[]; [VNum (Int 7); VArr 2]; [VNum (Int 1)]]
  = (Ok (VArr 1), [[]; [VArr 3; VArr 2]; [VNum (Int 1)]; [VNum (Int 7)]]).
Proof. reflexivity. Qed.

End CastFacts.

(** ** [validate] *)

Module ValidateFacts.
Import SchemaTypeArray Loops Fixtures ElementFacts.

Lemma validate_unfold this value_ data :
  validate this value_ data =
    (value <- SchemaTypeBase.validate (options this) value_ data ;;
     if negb (isArray value) then throw (ValidationError (MNotArray value)) else
     each_in_place (st_validate (child this)) data value).
Proof. reflexivity. Qed.



Section validate.
Variable this : t.
Variable data : val.

Lemma validate_not_array value_ h v h1 :
  SchemaTypeBase.validate (options this) value_ data h = (Ok v, h1) ->
  isArray v = false ->
  validate this value_ data h = (Throw (ValidationError (MNotArray v)), h1).
Proof.
  intros Hbase Harr; rewrite validate_unfold; unfold bind.
  rewrite Hbase, Harr; reflexivity.
Qed.

Lemma validate_base_error value_ h e h1 :
  SchemaTypeBase.validate (options this) value_ data h = (Throw e, h1) ->
  validate this value_ data h = (Throw e, h1).
Proof. intros Hbase; rewrite validate_unfold; unfold bind; rewrite Hbase; reflexivity. Qed.

Lemma validate_array value_ h a h1 l ys e h2 :
  SchemaTypeBase.validate (options this) value_ data h = (Ok (VArr a), h1) ->
  h1 !! a = Some l ->
  (forall x, x ∈ l -> local_at a (st_validate (child this)) data x) ->
  each (st_validate (child this)) data l h1 = (ys, e, h2) ->
  validate this value_ data h
  = (ended (VArr a) e, <[a := ys ++ drop (length ys) l]> h2).
Proof.
  intros Hbase Ha Hloc Heach; rewrite validate_unfold; unfold bind at 1.
  rewrite Hbase; cbn [isArray negb].
  apply each_in_place_each; assumption.
Qed.

Section pure_child.
Variable f : val -> outcome val.
Hypothesis validate_pure :
  forall x h, st_validate (child this) x data h = (f x, h).

Lemma validate_array_ok value_ h a h1 l ys :
  SchemaTypeBase.validate (options this) value_ data h = (Ok (VArr a), h1) ->
  h1 !! a = Some l ->
  Forall2 (fun x y => f x = Ok y) l ys ->
  validate this value_ data h = (Ok (VArr a), <[a := ys]> h1).
Proof using validate_pure.
  intros Hbase Ha HF; rewrite validate_unfold; unfold bind.
  rewrite Hbase; simpl.
  apply (each_in_place_ok _ _ f validate_pure a l ys h1 Ha HF).
Qed.

Lemma validate_array_throw value_ h a h1 l1 ys1 x l2 e :
  SchemaTypeBase.validate (options this) value_ data h = (Ok (VArr a), h1) ->
  h1 !! a = Some (l1 ++ x :: l2) ->
  Forall2 (fun x y => f x = Ok y) l1 ys1 ->
  f x = Throw e ->
  validate this value_ data h = (Throw e, <[a := ys1 ++ x :: l2]> h1).
Proof using validate_pure.
  intros Hbase Ha HF Hx; rewrite validate_unfold; unfold bind.
  rewrite Hbase; simpl.
  apply (each_in_place_throw _ _ f validate_pure a l1 ys1 x l2 e h1 Ha HF Hx).
Qed.

Lemma Forall2_identity l ys :
  (forall x y, f x = Ok y -> y = x) ->
  Forall2 (fun x y => f x = Ok y) l ys -> ys = l.
Proof.
  intros Hid; induction 1 as [|x y l ys Hx _ IH]; [reflexivity|].
  rewrite (Hid x y Hx), IH; reflexivity.
Qed.

(** With a child that returns what it is given, an error leaves the store
    as the base [validate] left it. *)
Lemma validate_identity_unchanged value_ h a h1 l err h' :
  (forall x y, f x = Ok y -> y = x) ->
  SchemaTypeBase.validate (options this) value_ data h = (Ok (VArr a), h1) ->
  h1 !! a = Some l ->
  validate this value_ data h = (Throw err, h') -> h' = h1.
Proof using validate_pure.
  intros Hid Hbase Ha Hrun.
  destruct (all_or_first_error f l)
    as [(ys & HF)|(l1 & ys1 & x & l2 & e & -> & HF & Hx)].
  - rewrite (validate_array_ok _ _ _ _ _ _ Hbase Ha HF) in Hrun; discriminate.
  - rewrite (validate_array_throw _ _ _ _ _ _ _ _ _ Hbase Ha HF Hx) in Hrun.
    injection Hrun as _ <-. rewrite (Forall2_identity _ _ Hid HF).
    apply (list_insert_id _ _ _ Ha).
Qed.

End pure_child.


(** C2, as the code has it.  An error of the base [validate] and a value
    that is not an array end [validate] with an error.  On an array it ends
    in one of two ways: every element passes the child and the array, holding the
    validated elements, is returned; or the child's error at the first
    rejected element is thrown and nothing is returned.  There is no
    rollback: the elements before the rejected one have been replaced by
    their validated values, the others are as they were.  The array is as it
    was only when those values are the elements themselves, as with a child
    that returns what it is given. *)
Theorem validate_all_or_error :
  (forall value_ h e h1,
      SchemaTypeBase.validate (options this) value_ data h = (Throw e, h1) ->
      validate this value_ data h = (Throw e, h1)) /\
  (forall value_ h v h1,
      SchemaTypeBase.validate (options this) value_ data h = (Ok v, h1) ->
      isArray v = false ->
      validate this value_ data h
      = (Throw (ValidationError (MNotArray v)), h1)) /\
  (forall value_ h a h1 l,
      SchemaTypeBase.validate (options this) value_ data h = (Ok (VArr a), h1) ->
      h1 !! a = Some l ->
      (forall x, x ∈ l -> local_at a (st_validate (child this)) data x) ->
      exists ys e h2,
        each (st_validate (child this)) data l h1 = (ys, e, h2) /\
        validate this value_ data h
        = (ended (VArr a) e, <[a := ys ++ drop (length ys) l]> h2) /\
        (e = None -> length ys = length l) /\
        (forall err, e = Some err -> length ys < length l)) /\
  (forall f value_ h a h1 l err h',
      (forall x h, st_validate (child this) x data h = (f x, h)) ->
      (forall x y, f x = Ok y -> y = x) ->
      SchemaTypeBase.validate (options this) value_ data h = (Ok (VArr a), h1) ->
      h1 !! a = Some l ->
      validate this value_ data h = (Throw err, h') -> h' = h1).
Proof.
  split; [exact validate_base_error|].
  split; [exact validate_not_array|].
  split.
  - intros value_ h a h1 l Hbase Ha Hloc.
    destruct (each (st_validate (child this)) data l h1) as [[ys e] h2] eqn:Heach.
    exists ys, e, h2. split; [reflexivity|].
    split; [apply (validate_array _ _ _ h1 l); assumption|].
    destruct (ElementLoops.each_length _ _ _ _ _ _ _ Heach) as (_ & H1 & H2).
    split; assumption.
  - intros f value_ h a h1 l err h' Hpure Hid.
    apply (validate_identity_unchanged f Hpure); exact Hid.
Qed.

End validate.


(** Validating [[1, null]] with required elements ends with the error of the
    null; the child returns what it is given, and the array is as it was. *)
Lemma validate_all_or_error_witness :
  let h := [[]; [VNum (Int 1); VNull]] in
  (exists ys e h2,
      each (st_validate required_child) VUndef [VNum (Int 1); VNull] h = (ys, e, h2) /\
      validate required_elements (VArr 1) VUndef h
      = (ended (VArr 1) e, <[1 := ys ++ drop (length ys) [VNum (Int 1); VNull]]> h2) /\
      (e = None -> length ys = 2) /\
      (forall err, e = Some err -> length ys < 2)) /\
  snd (validate required_elements (VArr 1) VUndef h) = h.
Proof.
  intros h.
  assert (Hpure : forall x h,
             st_validate required_child x VUndef h = (check_required x, h))
    by (intros [| | | |]; reflexivity).
  destruct (validate_all_or_error required_elements VUndef)
    as (_ & _ & Hrun & Hsame).
  split.
  - apply (Hrun (VArr 1) h 1 h [VNum (Int 1); VNull]); [reflexivity|reflexivity|].
    intros x _; apply (ElementLoops.local_pure _ VUndef check_required Hpure).
  - apply (Hsame check_required (VArr 1) h 1 h [VNum (Int 1); VNull]
             (ValidationError MRequired) _ Hpure);
      [|reflexivity|reflexivity|reflexivity].
    intros x y; unfold check_required; destruct (is_nullish x); congruence.
Defined.

(** C2 as stated fails: validating [[-1, null]] with the clamping child
    throws at the null, and the array is left as [[0, null]]. *)
Lemma validate_unchanged_counterexample :
  validate clamping_elements (VArr 1) VUndef [[]; [VNum (Int (-1)); VNull]]
    = (Throw (ValidationError (MText "not a number")),
       [[]; [VNum (Int 0); VNull]]) /\
  ~ (forall this value data h e h',
        validate this value data h = (Throw e, h') -> h' = h).
Proof.
  split; [reflexivity|].
  intros H.
  specialize (H clamping_elements (VArr 1) VUndef
                [[]; [VNum (Int (-1)); VNull]] _ _ eq_refl).
  discriminate H.
Qed.

End ValidateFacts.

(** ** [u$addToSet] *)

Module AddToSetFacts.
Import SchemaTypeArray Loops.

Lemma includes_elem_of (x : val) (l : list val) :
  existsb (same_value_zero x) l = true <-> x ∈ l.
Proof.
  rewrite existsb_exists; unfold same_value_zero; split.
  - intros (y & Hy & Hxy). apply bool_decide_eq_true in Hxy; subst y.
    apply list_elem_of_In; exact Hy.
  - intros Hx; exists x; split; [apply list_elem_of_In, Hx|].
    apply bool_decide_eq_true; reflexivity.
Qed.

Lemma includes_not_elem_of (x : val) (l : list val) :
  existsb (same_value_zero x) l = false <-> x ∉ l.
Proof.
  rewrite <- includes_elem_of; destruct (existsb _ l); split; congruence.
Qed.

(** The array grows at its end by the members of the operand that it did
    not hold, each once, in the order of the operand. *)
Lemma add_missing_spec (items l : list val) :
  exists new,
    add_missing l items = l ++ new /\
    NoDup new /\
    (forall x, x ∈ new <-> x ∈ items /\ x ∉ l) /\
    sublist new items.
Proof.
  revert l; induction items as [|x items IH]; intros l; simpl.
  - exists []; rewrite app_nil_r.
    split; [reflexivity|]. split; [constructor|]. split; [|constructor].
    intros y; split; [intros Hy|intros [Hy _]]; inversion Hy.
  - destruct (existsb (same_value_zero x) l) eqn:Hx.
    + apply includes_elem_of in Hx.
      destruct (IH l) as (new & Heq & Hnd & Hmem & Hsub).
      exists new.
      split; [exact Heq|]. split; [exact Hnd|]. split; [|apply sublist_cons, Hsub].
      intros y; rewrite Hmem, elem_of_cons; split; [tauto|].
      intros [[->|Hin] Hnot]; [contradiction|tauto].
    + apply includes_not_elem_of in Hx.
      destruct (IH (l ++ [x])) as (new & Heq & Hnd & Hmem & Hsub).
      exists (x :: new).
      split; [rewrite Heq, <- app_assoc; reflexivity|].
      split; [|split; [|apply sublist_skip, Hsub]].
      * constructor; [|exact Hnd].
        intros Hin; apply Hmem in Hin as [_ Hnot].
        apply Hnot, elem_of_app; right; constructor.
      * intros y; rewrite !elem_of_cons, Hmem, elem_of_app, list_elem_of_singleton.
        split.
        -- intros [->|[Hin Hnot]]; [tauto|]. split; [tauto|tauto].
        -- intros [[->|Hin] Hnot]; [tauto|].
           destruct (decide (y = x)) as [->|Hne]; [tauto|]. right; tauto.
Qed.

Lemma add_missing_present (items l : list val) :
  (forall x, x ∈ items -> x ∈ l) -> add_missing l items = l.
Proof.
  induction items as [|x items IH]; intros H; simpl; [reflexivity|].
  rewrite (proj2 (includes_elem_of x l)) by (apply H; left).
  apply IH; intros y Hy; apply H; right; exact Hy.
Qed.

Lemma u_addToSet_unfold_array value u data :
  truthy value = true ->
  u_addToSet value (VArr u) data =
    (len <- liftO (get_length (VArr u)) ;;
     for_loop (bound len) 0 (add_body value (VArr u)) ;;;
     ret value).
Proof. intros Hv; unfold u_addToSet; simpl; rewrite Hv; reflexivity. Qed.

Lemma add_body_step a u l pre x items h :
  a <> u ->
  h !! a = Some l -> h !! u = Some (pre ++ x :: items) ->
  add_body (VArr a) (VArr u) (length pre) h
  = (Ok tt, <[a := if existsb (same_value_zero x) l then l else l ++ [x]]> h).
Proof.
  intros Hne Ha Hu; unfold add_body, bind, liftO; simpl.
  rewrite (elems_lookup _ _ _ Hu), list_lookup_middle by reflexivity; simpl.
  rewrite (elems_lookup _ _ _ Ha).
  destruct (existsb (same_value_zero x) l); simpl.
  - unfold ret; rewrite (list_insert_id _ _ _ Ha); reflexivity.
  - rewrite (elems_lookup _ _ _ Ha); reflexivity.
Qed.

Lemma add_loop a u items :
  a <> u ->
  forall pre l h,
    h !! a = Some l -> h !! u = Some (pre ++ items) ->
    for_loop (length items) (length pre) (add_body (VArr a) (VArr u)) h
    = (Ok tt, <[a := add_missing l items]> h).
Proof.
  intros Hne; induction items as [|x items IH]; intros pre l h Ha Hu; simpl.
  - unfold ret; rewrite (list_insert_id _ _ _ Ha); reflexivity.
  - unfold bind at 1. rewrite (add_body_step a u l pre x items h Hne Ha Hu).
    specialize (IH (pre ++ [x])
                   (if existsb (same_value_zero x) l then l else l ++ [x])
                   (<[a := if existsb (same_value_zero x) l then l else l ++ [x]]> h)).
    rewrite (length_app pre), Nat.add_1_r in IH.
    rewrite IH.
    + rewrite list_insert_insert_eq; reflexivity.
    + apply (heap_insert_lookup _ _ _ _ Ha).
    + rewrite list_lookup_insert_ne by exact Hne.
      rewrite <- app_assoc; exact Hu.
Qed.

(** When the operand is the array itself every member is found in it. *)
Lemma add_loop_same a items :
  forall pre h,
    h !! a = Some (pre ++ items) ->
    for_loop (length items) (length pre) (add_body (VArr a) (VArr a)) h
    = (Ok tt, h).
Proof.
  induction items as [|x items IH]; intros pre h Ha; simpl; [reflexivity|].
  unfold bind at 1, add_body at 1, bind, liftO; simpl.
  rewrite (elems_lookup _ _ _ Ha), list_lookup_middle by reflexivity; simpl.
  rewrite (proj2 (includes_elem_of x (pre ++ x :: items)))
    by (apply elem_of_app; right; left).
  simpl. specialize (IH (pre ++ [x]) h).
  rewrite (length_app pre), Nat.add_1_r in IH.
  apply IH. rewrite <- app_assoc; exact Ha.
Qed.

Lemma u_addToSet_array a u l items data h :
  h !! a = Some l -> h !! u = Some items ->
  u_addToSet (VArr a) (VArr u) data h
  = (Ok (VArr a), <[a := add_missing l items]> h).
Proof.
  intros Ha Hu; rewrite u_addToSet_unfold_array by reflexivity.
  unfold bind at 1, liftO; simpl.
  rewrite (elems_lookup _ _ _ Hu); cbn [default from_option bound]; unfold id.
  unfold bind. destruct (decide (a = u)) as [->|Hne].
  - assert (items = l) by congruence; subst items.
    pose proof (add_loop_same u l [] h Ha) as E; cbn [length app] in E.
    rewrite E, add_missing_present by auto.
    rewrite (list_insert_id _ _ _ Ha); reflexivity.
  - pose proof (add_loop a u items Hne [] l h Ha Hu) as E; cbn [length app] in E.
    rewrite E; reflexivity.
Qed.

Lemma u_addToSet_single a l update data h :
  isArray update = false -> h !! a = Some l ->
  u_addToSet (VArr a) update data h
  = (Ok (VArr a), <[a := if bool_decide (update ∈ l) then l else l ++ [update]]> h).
Proof.
  intros Hupd Ha; unfold u_addToSet; rewrite Hupd; simpl.
  unfold bind, liftO; simpl. rewrite (elems_lookup _ _ _ Ha).
  case_bool_decide as Hin.
  - rewrite (proj2 (includes_elem_of _ _) Hin); simpl.
    unfold ret; rewrite (list_insert_id _ _ _ Ha); reflexivity.
  - rewrite (proj2 (includes_not_elem_of _ _) Hin); simpl.
    rewrite (elems_lookup _ _ _ Ha); reflexivity.
Qed.

(** C7, as the code has it.  With an operand that is not an array,
    [u$addToSet] appends it to the array exactly when the array does not
    hold it yet.  With an operand that is an array, the array grows at its
    end by the members of the operand that it did not hold, each of them
    once and in the order of the operand.  The array is updated in place
    and is the result.  Presence is that of [Array.prototype.includes]:
    equality of content for the primitive values, of reference for arrays,
    so that a member with the content of an element, but another
    reference, is appended: [u$addToSet([[1]], [[1]])] is [[[1], [1]]]. *)
Theorem u_addToSet_set_semantics :
  (forall a l update data h,
      isArray update = false -> h !! a = Some l ->
      u_addToSet (VArr a) update data h
      = (Ok (VArr a),
         <[a := if bool_decide (update ∈ l) then l else l ++ [update]]> h)) /\
  (forall a u l items data h,
      h !! a = Some l -> h !! u = Some items ->
      exists new,
        u_addToSet (VArr a) (VArr u) data h = (Ok (VArr a), <[a := l ++ new]> h) /\
        l ++ new = add_missing l items /\
        NoDup new /\
        (forall x, x ∈ new <-> x ∈ items /\ x ∉ l) /\
        sublist new items) /\
  u_addToSet (VArr 0) (VNum (Int 2)) VUndef [[VNum (Int 1); VNum (Int 2)]]
    = (Ok (VArr 0), [[VNum (Int 1); VNum (Int 2)]]) /\
  u_addToSet (VArr 0) (VArr 1) VUndef [[VNum (Int 1)]; [VNum (Int 1); VNum (Int 2)]]
    = (Ok (VArr 0), [[VNum (Int 1); VNum (Int 2)]; [VNum (Int 1); VNum (Int 2)]]) /\
  u_addToSet (VArr 0) (VArr 2) VUndef
    [[VArr 1]; [VNum (Int 1)]; [VArr 3]; [VNum (Int 1)]]
    = (Ok (VArr 0), [[VArr 1; VArr 3]; [VNum (Int 1)]; [VArr 3]; [VNum (Int 1)]]).
Proof.
  split; [exact u_addToSet_single|].
  split; [|split; [|split]; reflexivity].
  intros a u l items data h Ha Hu.
  destruct (add_missing_spec items l) as (new & Heq & Hnd & Hmem & Hsub).
  exists new; rewrite <- Heq.
  split; [apply u_addToSet_array; assumption|auto].
Qed.

(** Adding 3, then [[2, 4, 4]], to [[1, 2]]. *)
Lemma u_addToSet_set_semantics_witness :
  u_addToSet (VArr 0) (VNum (Int 3)) VUndef [[VNum (Int 1); VNum (Int 2)]]
    = (Ok (VArr 0), [[VNum (Int 1); VNum (Int 2); VNum (Int 3)]]) /\
  exists new,
    u_addToSet (VArr 0) (VArr 1) VUndef
      [[VNum (Int 1); VNum (Int 2)]; [VNum (Int 2); VNum (Int 4); VNum (Int 4)]]
    = (Ok (VArr 0),
       [[VNum (Int 1); VNum (Int 2)] ++ new;
        [VNum (Int 2); VNum (Int 4); VNum (Int 4)]]) /\
    NoDup new.
Proof.
  destruct u_addToSet_set_semantics as (Hone & Hmany & _).
  split.
  - apply (Hone 0 [VNum (Int 1); VNum (Int 2)] (VNum (Int 3)) VUndef
             [[VNum (Int 1); VNum (Int 2)]]); reflexivity.
  - destruct (Hmany 0 1 [VNum (Int 1); VNum (Int 2)]
                [VNum (Int 2); VNum (Int 4); VNum (Int 4)] VUndef
                [[VNum (Int 1); VNum (Int 2)];
                 [VNum (Int 2); VNum (Int 4); VNum (Int 4)]] eq_refl eq_refl)
      as (new & Hrun & _ & Hnd & _).
    exists new; split; [exact Hrun|exact Hnd].
Defined.

(** C7 as stated fails: presence is not by equality of content.  The
    array [[[1]]] holds an array with the content of the member of the
    operand [[[1]]], and [u$addToSet] appends that member all the same,
    the array ending as [[[1], [1]]]: what is appended can have the
    content of an element that the array holds. *)
Lemma u_addToSet_content_counterexample :
  elems 1 [[VArr 1]; [VNum (Int 1)]; [VArr 3]; [VNum (Int 1)]]
  = elems 3 [[VArr 1]; [VNum (Int 1)]; [VArr 3]; [VNum (Int 1)]] /\
  u_addToSet (VArr 0) (VArr 2) VUndef
    [[VArr 1]; [VNum (Int 1)]; [VArr 3]; [VNum (Int 1)]]
  = (Ok (VArr 0), [[VArr 1; VArr 3]; [VNum (Int 1)]; [VArr 3]; [VNum (Int 1)]]) /\
  ~ (forall h a u l new x y,
        h !! a = Some l ->
        u_addToSet (VArr a) (VArr u) VUndef h = (Ok (VArr a), <[a := l ++ new]> h) ->
        VArr x ∈ l -> VArr y ∈ new ->
        elems x h <> elems y h).
Proof.
  split; [reflexivity|]. split; [reflexivity|].
  intros H.
  apply (H [[VArr 1]; [VNum (Int 1)]; [VArr 3]; [VNum (Int 1)]]
           0 2 [VArr 1] [VArr 3] 1 3);
    [reflexivity|reflexivity|left|left|reflexivity].
Qed.

(** A member that is an array is looked up by reference: the array at
    address 3 holds what the array at address 2 holds, and is added to an
    array that holds the latter. *)
Example u_addToSet_by_reference :
  u_addToSet (VArr 0) (VArr 1) VUndef
    [[VArr 2]; [VArr 3; VArr 2]; [VNum (Int 1)]; [VNum (Int 1)]]
  = (Ok (VArr 0),
     [[VArr 2; VArr 3]; [VArr 3; VArr 2]; [VNum (Int 1)]; [VNum (Int 1)]]).
Proof. reflexivity. Qed.

End AddToSetFacts.

(** ** [u$pull] *)

Module PullFacts.
Import SchemaTypeArray FilterLoop.

(** The loop of [filter] with a callback that answers [f] whatever the new
    array holds: the new array grows by the elements that [f] accepts. *)
Lemma filter_loop a r (callback : val -> heap -> outcome bool) (f : val -> bool)
  suf :
  a <> r ->
  forall pre acc h,
    r < length h ->
    h !! a = Some (pre ++ suf) ->
    (forall x acc', callback x (<[r := acc']> h) = Ok (f x)) ->
    for_loop (length suf) (length pre) (filter_body (VArr a) (VArr r) callback)
      (<[r := acc]> h)
    = (Ok tt, <[r := acc ++ filter (fun x => f x = true) suf]> h).
Proof.
  intros Hne; induction suf as [|x suf IH]; intros pre acc h Hr Ha Hcb; simpl.
  - rewrite app_nil_r; reflexivity.
  - assert (Hget : get_index (VArr a) (length pre) (<[r := acc]> h) = x).
    { apply get_index_lookup. unfold elems.
      rewrite list_lookup_insert_ne, Ha by (intros ->; apply Hne; reflexivity).
      apply list_lookup_middle; reflexivity. }
    unfold bind at 1, filter_body at 1, bind, liftO.
    rewrite !Hget, Hcb.
    specialize (IH (pre ++ [x])).
    rewrite (length_app pre), Nat.add_1_r, <- app_assoc in IH.
    destruct (f x) eqn:Hfx.
    + unfold push. rewrite elems_insert, list_insert_insert_eq by exact Hr.
      rewrite (IH (acc ++ [x]) h Hr Ha Hcb).
      rewrite filter_cons_True, <- app_assoc by exact Hfx; reflexivity.
    + unfold ret. rewrite (IH acc h Hr Ha Hcb).
      rewrite filter_cons_False by congruence; reflexivity.
Qed.

Lemma array_filter_unfold a (callback : val -> heap -> outcome bool) :
  array_filter (VArr a) callback =
    (len <- liftO (get_length (VArr a)) ;;
     result <- alloc [] ;;
     for_loop (bound len) 0 (filter_body (VArr a) result callback) ;;;
     ret result).
Proof. reflexivity. Qed.

Lemma array_filter_pure a l (callback : val -> heap -> outcome bool)
  (f : val -> bool) h :
  h !! a = Some l ->
  (forall x acc, callback x (<[length h := acc]> (h ++ [[]])) = Ok (f x)) ->
  array_filter (VArr a) callback h
  = (Ok (VArr (length h)), h ++ [filter (fun x => f x = true) l]).
Proof.
  intros Ha Hcb; rewrite array_filter_unfold; unfold bind, liftO, alloc.
  cbn [get_length].
  rewrite (elems_lookup _ _ _ Ha); cbn [default from_option bound]; unfold id.
  pose proof (lookup_lt_Some _ _ _ Ha) as Hlt.
  pose proof (filter_loop a (length h) callback f l ltac:(lia) [] []
                (h ++ [[]])) as E.
  cbn [length app] in E. rewrite heap_snoc_insert in E.
  rewrite E; [rewrite heap_snoc_insert; reflexivity| | |exact Hcb].
  - rewrite length_app; simpl; lia.
  - rewrite lookup_app_l by lia; exact Ha.
Qed.

Lemma u_pull_single a l update data h :
  isArray update = false -> h !! a = Some l ->
  u_pull (VArr a) update data h
  = (Ok (VArr (length h)), h ++ [filter (fun x => differs update x = true) l]).
Proof.
  intros Hupd Ha; unfold u_pull; cbn [truthy negb]; rewrite Hupd.
  apply (array_filter_pure a l _ (differs update) h Ha).
  intros x acc; reflexivity.
Qed.

Lemma u_pull_array a u l items data h :
  h !! a = Some l -> h !! u = Some items ->
  u_pull (VArr a) (VArr u) data h
  = (Ok (VArr (length h)), h ++ [filter (fun x => outside items x = true) l]).
Proof.
  intros Ha Hu; unfold u_pull; cbn [truthy negb isArray].
  apply (array_filter_pure a l _ (outside items) h Ha).
  intros x acc; cbn [includes].
  pose proof (lookup_lt_Some _ _ _ Hu) as Hlt.
  unfold elems. rewrite list_lookup_insert_ne by lia.
  rewrite lookup_app_l, Hu by lia. reflexivity.
Qed.

End PullFacts.

(** ** [u$push] and [u$unshift] *)

Module PushFacts.
Import SchemaTypeArray.

Lemma u_push_array a u l items data h :
  h !! a = Some l -> h !! u = Some items ->
  u_push (VArr a) (VArr u) data h = (Ok (VArr (length h)), h ++ [l ++ items]).
Proof.
  intros Ha Hu; unfold u_push, concat, alloc; simpl.
  rewrite (elems_lookup _ _ _ Ha), (elems_lookup _ _ _ Hu); reflexivity.
Qed.

Lemma u_unshift_array a u l items data h :
  h !! a = Some l -> h !! u = Some items ->
  u_unshift (VArr a) (VArr u) data h = (Ok (VArr (length h)), h ++ [items ++ l]).
Proof.
  intros Ha Hu; unfold u_unshift, concat, alloc; simpl.
  rewrite (elems_lookup _ _ _ Ha), (elems_lookup _ _ _ Hu); reflexivity.
Qed.

Lemma u_push_element a l x data h :
  isArray x = false -> h !! a = Some l ->
  u_push (VArr a) x data h = (Ok (VArr a), <[a := l ++ [x]]> h).
Proof.
  intros Hx Ha; unfold u_push; rewrite Hx; simpl.
  unfold bind, push; rewrite (elems_lookup _ _ _ Ha); reflexivity.
Qed.

Lemma u_unshift_element a l x data h :
  isArray x = false -> h !! a = Some l ->
  u_unshift (VArr a) x data h = (Ok (VArr a), <[a := x :: l]> h).
Proof.
  intros Hx Ha; unfold u_unshift; rewrite Hx; simpl.
  unfold bind, unshift; rewrite (elems_lookup _ _ _ Ha); reflexivity.
Qed.

(** X1.  [u$push] and [u$unshift] lose nothing and differ in what they
    share.  With an operand that is an array the result is a new array,
    the elements of the value followed (for [u$unshift]: preceded) by those
    of the operand, and the two arrays stay as they were.  With any other
    operand the value itself is updated, at its end (for [u$unshift]: at its
    front), and is the result. *)
Theorem u_push_u_unshift_contents :
  forall a l data h,
    h !! a = Some l ->
    (forall u items,
        h !! u = Some items ->
        u_push (VArr a) (VArr u) data h
          = (Ok (VArr (length h)), h ++ [l ++ items]) /\
        u_unshift (VArr a) (VArr u) data h
          = (Ok (VArr (length h)), h ++ [items ++ l])) /\
    (forall x,
        isArray x = false ->
        u_push (VArr a) x data h = (Ok (VArr a), <[a := l ++ [x]]> h) /\
        u_unshift (VArr a) x data h = (Ok (VArr a), <[a := x :: l]> h)).
Proof.
  intros a l data h Ha; split.
  - intros u items Hu; split;
      [apply u_push_array|apply u_unshift_array]; assumption.
  - intros x Hx; split;
      [apply u_push_element|apply u_unshift_element]; assumption.
Qed.

(** Pushing and unshifting [[3]], then 3, on [[1, 2]]. *)
Lemma u_push_u_unshift_contents_witness :
  let h := [[VNum (Int 1); VNum (Int 2)]; [VNum (Int 3)]] in
  u_push (VArr 0) (VArr 1) VUndef h
    = (Ok (VArr 2), h ++ [[VNum (Int 1); VNum (Int 2); VNum (Int 3)]]) /\
  u_unshift (VArr 0) (VNum (Int 3)) VUndef h
    = (Ok (VArr 0), [[VNum (Int 3); VNum (Int 1); VNum (Int 2)]; [VNum (Int 3)]]).
Proof.
  intros h.
  destruct (u_push_u_unshift_contents 0 [VNum (Int 1); VNum (Int 2)] VUndef h eq_refl)
    as (Harr & Hone).
  split.
  - apply (Harr 1 [VNum (Int 3)] eq_refl).
  - apply (Hone (VNum (Int 3)) eq_refl).
Defined.

(** X2.  On two arrays [u$unshift] is [u$push] with the sides exchanged;
    and on one array, unshifting [x] and pushing [y] leave the same store
    in either order.  [u$append] and [u$prepend] are the very functions
    [u$push] and [u$unshift]. *)
Theorem u_unshift_mirrors_u_push :
  (forall a u l items data h,
      h !! a = Some l -> h !! u = Some items ->
      u_unshift (VArr a) (VArr u) data h = u_push (VArr u) (VArr a) data h) /\
  (forall a l x y data h,
      isArray x = false -> isArray y = false -> h !! a = Some l ->
      (u_unshift (VArr a) x data ;;; u_push (VArr a) y data) h
      = (u_push (VArr a) y data ;;; u_unshift (VArr a) x data) h /\
      (u_unshift (VArr a) x data ;;; u_push (VArr a) y data) h
      = (Ok (VArr a), <[a := x :: l ++ [y]]> h)) /\
  u_append = u_push /\ u_prepend = u_unshift.
Proof.
  split; [|split; [|split; reflexivity]].
  - intros a u l items data h Ha Hu.
    rewrite (u_unshift_array a u l items data h Ha Hu).
    rewrite (u_push_array u a items l data h Hu Ha); reflexivity.
  - intros a l x y data h Hx Hy Ha.
    unfold bind.
    rewrite (u_unshift_element a l x data h Hx Ha).
    rewrite (u_push_element a l y data h Hy Ha).
    rewrite (u_push_element a (x :: l) y data _ Hy (heap_insert_lookup _ _ _ _ Ha)).
    rewrite (u_unshift_element a (l ++ [y]) x data _ Hx (heap_insert_lookup _ _ _ _ Ha)).
    rewrite !list_insert_insert_eq; split; reflexivity.
Qed.

Lemma u_unshift_mirrors_u_push_witness :
  let h := [[VNum (Int 1)]; [VNum (Int 2)]] in
  u_unshift (VArr 0) (VArr 1) VUndef h = u_push (VArr 1) (VArr 0) VUndef h /\
  (u_unshift (VArr 0) (VNum (Int 0)) VUndef ;;; u_push (VArr 0) (VNum (Int 9)) VUndef) h
  = (Ok (VArr 0), [[VNum (Int 0); VNum (Int 1); VNum (Int 9)]; [VNum (Int 2)]]).
Proof.
  intros h. destruct u_unshift_mirrors_u_push as (Hmirror & Hcomm & _).
  split.
  - apply (Hmirror 0 1 [VNum (Int 1)] [VNum (Int 2)] VUndef h); reflexivity.
  - apply (Hcomm 0 [VNum (Int 1)] (VNum (Int 0)) (VNum (Int 9)) VUndef h);
      reflexivity.
Defined.

(** X3.  The sides that are not arrays.  On an absent (falsy) value both
    operators return the operand itself when it is an array, without a
    copy, and a new array of one element otherwise.  On a truthy value that
    is not an array, a boolean or a number, [u$push] throws a TypeError
    whatever the operand is; [u$unshift] throws it for an operand that is
    not an array, but with an array operand it returns a new array, the
    operand's elements followed by the value. *)
Theorem u_push_u_unshift_without_array :
  (forall v u data h,
      truthy v = false ->
      u_push v (VArr u) data h = (Ok (VArr u), h) /\
      u_unshift v (VArr u) data h = (Ok (VArr u), h)) /\
  (forall v x data h,
      truthy v = false -> isArray x = false ->
      u_push v x data h = (Ok (VArr (length h)), h ++ [[x]]) /\
      u_unshift v x data h = (Ok (VArr (length h)), h ++ [[x]])) /\
  (forall v x data h,
      truthy v = true -> isArray v = false ->
      u_push v x data h = (Throw (TypeError MNotFunction), h)) /\
  (forall v x data h,
      truthy v = true -> isArray v = false -> isArray x = false ->
      u_unshift v x data h = (Throw (TypeError MNotFunction), h)) /\
  (forall v u items data h,
      truthy v = true -> isArray v = false -> h !! u = Some items ->
      u_unshift v (VArr u) data h = (Ok (VArr (length h)), h ++ [items ++ [v]])).
Proof.
  split; [|split; [|split; [|split]]].
  - intros v u data h Hv; unfold u_push, u_unshift; simpl; rewrite Hv; auto.
  - intros v x data h Hv Hx; unfold u_push, u_unshift; rewrite Hx, Hv; auto.
  - intros v x data h Hv Harr; unfold u_push; rewrite Hv.
    destruct v as [| |b|n|a]; try discriminate; destruct (isArray x); reflexivity.
  - intros v x data h Hv Harr Hx; unfold u_unshift; rewrite Hv, Hx.
    destruct v as [| |b|n|a]; try discriminate; reflexivity.
  - intros v u items data h Hv Harr Hu; unfold u_unshift; simpl; rewrite Hv.
    unfold concat, alloc; rewrite (elems_lookup _ _ _ Hu).
    destruct v as [| |b|n|a]; try discriminate; reflexivity.
Qed.

Lemma u_push_u_unshift_without_array_witness :
  let h := [[VNum (Int 1)]] in
  u_push VUndef (VArr 0) VUndef h = (Ok (VArr 0), h) /\
  u_unshift VUndef (VNum (Int 1)) VUndef h = (Ok (VArr 1), h ++ [[VNum (Int 1)]]) /\
  u_push (VNum (Int 5)) (VArr 0) VUndef h = (Throw (TypeError MNotFunction), h) /\
  u_unshift (VBool true) (VNum (Int 1)) VUndef h
    = (Throw (TypeError MNotFunction), h) /\
  u_unshift (VNum (Int 5)) (VArr 0) VUndef h
    = (Ok (VArr 1), h ++ [[VNum (Int 1); VNum (Int 5)]]).
Proof.
  intros h.
  destruct u_push_u_unshift_without_array as (H1 & H2 & H3 & H4 & H5).
  split; [apply (H1 VUndef 0 VUndef h); reflexivity|].
  split; [apply (H2 VUndef (VNum (Int 1)) VUndef h); reflexivity|].
  split; [apply (H3 (VNum (Int 5)) (VArr 0) VUndef h); reflexivity|].
  split; [apply (H4 (VBool true) (VNum (Int 1)) VUndef h); reflexivity|].
  apply (H5 (VNum (Int 5)) 0 [VNum (Int 1)] VUndef h); reflexivity.
Defined.

(** X4.  What is added comes off again.  After [u$push] of one element,
    [u$pop] with true gives the elements the array had; after [u$unshift]
    of one element, [u$shift] with true does; and from the array that
    [u$push] makes of two arrays, [u$pop] with the length of the operand
    gives the elements of the first. *)
Theorem push_pop_round_trip :
  forall a l data h,
    h !! a = Some l ->
    (forall x,
        isArray x = false ->
        exists h1 h2,
          u_push (VArr a) x data h = (Ok (VArr a), h1) /\
          u_pop (VArr a) (CBool true) data h1 = (Ok (VArr (length h1)), h1 ++ [l]) /\
          u_unshift (VArr a) x data h = (Ok (VArr a), h2) /\
          u_shift (VArr a) (CBool true) data h2
            = (Ok (VArr (length h2)), h2 ++ [l])) /\
    (forall u items,
        h !! u = Some items -> 0 < length items ->
        exists r h1,
          u_push (VArr a) (VArr u) data h = (Ok (VArr r), h1) /\
          u_pop (VArr r) (CNum (Int (Z.of_nat (length items)))) data h1
            = (Ok (VArr (length h1)), h1 ++ [l])).
Proof.
  intros a l data h Ha; split.
  - intros x Hx.
    exists (<[a := l ++ [x]]> h), (<[a := x :: l]> h).
    split; [apply u_push_element; assumption|].
    split.
    + rewrite (ShiftPopFacts.u_pop_true a (l ++ [x]) _ data
                 (heap_insert_lookup _ _ _ _ Ha)).
      unfold alloc.
      replace (length (l ++ [x]) - 1) with (length l)
        by (rewrite length_app; simpl; lia).
      rewrite take_app_length; reflexivity.
    + split; [apply u_unshift_element; assumption|].
      rewrite (ShiftPopFacts.u_shift_true a (x :: l) _ data
                 (heap_insert_lookup _ _ _ _ Ha)).
      reflexivity.
  - intros u items Hu Hn.
    exists (length h), (h ++ [l ++ items]).
    split; [apply u_push_array; assumption|].
    rewrite (ShiftPopFacts.u_pop_pos (length h) (l ++ items) _ data
               (list_lookup_middle h [] (l ++ items) (length h) eq_refl)
               (length items)) by (rewrite length_app; lia).
    unfold alloc.
    replace (length (l ++ items) - length items) with (length l)
      by (rewrite length_app; lia).
    rewrite take_app_length; reflexivity.
Qed.

Lemma push_pop_round_trip_witness :
  let h := [[VNum (Int 1); VNum (Int 2)]; [VNum (Int 3)]] in
  exists r h1,
    u_push (VArr 0) (VArr 1) VUndef h = (Ok (VArr r), h1) /\
    u_pop (VArr r) (CNum (Int 1)) VUndef h1
      = (Ok (VArr (length h1)), h1 ++ [[VNum (Int 1); VNum (Int 2)]]).
Proof.
  intros h.
  destruct (push_pop_round_trip 0 [VNum (Int 1); VNum (Int 2)] VUndef h eq_refl)
    as (_ & Harr).
  apply (Harr 1 [VNum (Int 3)] eq_refl). simpl; lia.
Defined.

End PushFacts.

(** ** [q$in], [q$nin] and [q$all] on two arrays *)

Module QuerySets.
Import SchemaTypeArray.

Section loops.
Variables (a u : addr) (l : list val) (h : heap).
Hypothesis Ha : h !! a = Some l.

Local Abbreviation held := (fun x : val => existsb (same_value_zero x) l).

Lemma some_loop (r : bool) (suf : list val) :
  forall pre,
    h !! u = Some (pre ++ suf) ->
    for_find (length suf) (length pre) (fun i =>
      b <-? includes (VArr a) (get_index (VArr u) i h) h ;;
      Ok (if b then Some r else None))
    = Ok (if existsb held suf then Some r else None).
Proof using Ha.
  set (body := fun i : nat =>
         b <-? includes (VArr a) (get_index (VArr u) i h) h ;;
         Ok (if b then Some r else None)).
  induction suf as [|x suf IH]; intros pre Hu; [reflexivity|].
  cbn [for_find length existsb].
  assert (Hb : body (length pre) = Ok (if held x then Some r else None)).
  { unfold body.
    rewrite (get_index_lookup u h (length pre) x)
      by (rewrite (elems_lookup _ _ _ Hu); apply list_lookup_middle; reflexivity).
    cbn [includes bindO]; rewrite (elems_lookup _ _ _ Ha); reflexivity. }
  rewrite Hb; cbn [bindO].
  destruct (existsb (same_value_zero x) l); [reflexivity|]; cbn [orb].
  specialize (IH (pre ++ [x])).
  rewrite length_app, Nat.add_1_r, <- app_assoc in IH; apply IH, Hu.
Qed.

Lemma every_loop (suf : list val) :
  forall pre,
    h !! u = Some (pre ++ suf) ->
    for_find (length suf) (length pre) (fun i =>
      b <-? includes (VArr a) (get_index (VArr u) i h) h ;;
      Ok (if negb b then Some false else None))
    = Ok (if forallb held suf then None else Some false).
Proof using Ha.
  set (body := fun i : nat =>
         b <-? includes (VArr a) (get_index (VArr u) i h) h ;;
         Ok (if negb b then Some false else None)).
  induction suf as [|x suf IH]; intros pre Hu; [reflexivity|].
  cbn [for_find length forallb].
  assert (Hb : body (length pre) = Ok (if negb (held x) then Some false else None)).
  { unfold body.
    rewrite (get_index_lookup u h (length pre) x)
      by (rewrite (elems_lookup _ _ _ Hu); apply list_lookup_middle; reflexivity).
    cbn [includes bindO]; rewrite (elems_lookup _ _ _ Ha); reflexivity. }
  rewrite Hb; cbn [bindO].
  destruct (existsb (same_value_zero x) l); [|reflexivity]; cbn [negb andb].
  specialize (IH (pre ++ [x])).
  rewrite length_app, Nat.add_1_r, <- app_assoc in IH; apply IH, Hu.
Qed.

End loops.

Lemma q_in_arrays a u l items data h :
  h !! a = Some l -> h !! u = Some items ->
  q_in (VArr a) (VArr u) data h
  = Ok (existsb (fun x => existsb (same_value_zero x) l) items).
Proof.
  intros Ha Hu; unfold q_in; cbn [truthy negb get_length bindO].
  rewrite (elems_lookup _ _ _ Hu); cbn [bound default from_option]; unfold id.
  pose proof (some_loop a u l h Ha true items [] Hu) as E; cbn [length] in E.
  rewrite E; destruct (existsb _ items); reflexivity.
Qed.

Lemma q_nin_arrays a u l items data h :
  h !! a = Some l -> h !! u = Some items ->
  q_nin (VArr a) (VArr u) data h
  = Ok (negb (existsb (fun x => existsb (same_value_zero x) l) items)).
Proof.
  intros Ha Hu; rewrite QueryFacts.q_nin_negb_q_in.
  rewrite (q_in_arrays a u l items data h Ha Hu); reflexivity.
Qed.

Lemma q_all_arrays a u l items data h :
  h !! a = Some l -> h !! u = Some items ->
  q_all (VArr a) (VArr u) data h
  = Ok (forallb (fun x => existsb (same_value_zero x) l) items).
Proof.
  intros Ha Hu; unfold q_all; cbn [truthy negb get_length bindO].
  rewrite (elems_lookup _ _ _ Hu); cbn [bound default from_option]; unfold id.
  pose proof (every_loop a u l h Ha items [] Hu) as E; cbn [length] in E.
  rewrite E; destruct (forallb _ items); reflexivity.
Qed.

Lemma some_held (l items : list val) :
  existsb (fun x => existsb (same_value_zero x) l) items = true
  <-> exists x, x ∈ items /\ x ∈ l.
Proof.
  rewrite existsb_exists; split; intros (x & H1 & H2); exists x.
  - split; [apply list_elem_of_In, H1|apply AddToSetFacts.includes_elem_of, H2].
  - split; [apply list_elem_of_In, H1|apply AddToSetFacts.includes_elem_of, H2].
Qed.

Lemma every_held (l items : list val) :
  forallb (fun x => existsb (same_value_zero x) l) items = true
  <-> forall x, x ∈ items -> x ∈ l.
Proof.
  rewrite forallb_forall; split; intros H x Hx.
  - apply AddToSetFacts.includes_elem_of, H, list_elem_of_In, Hx.
  - apply AddToSetFacts.includes_elem_of, H, list_elem_of_In, Hx.
Qed.

(** X5.  On two arrays the three set queries never throw and answer by
    the elements the arrays have in common: [q$in] is true exactly when
    some element of the query is in the value, [q$all] exactly when every
    element of the query is, and [q$nin] exactly when none is.  So [q$all]
    with a query that is not empty implies [q$in], and [q$in] and [q$nin]
    are true of an array and itself exactly when it is, respectively is
    not, empty. *)
Theorem queries_on_arrays :
  forall a u l items data h,
    h !! a = Some l -> h !! u = Some items ->
    exists some every : bool,
      q_in (VArr a) (VArr u) data h = Ok some /\
      q_all (VArr a) (VArr u) data h = Ok every /\
      q_nin (VArr a) (VArr u) data h = Ok (negb some) /\
      (some = true <-> exists x, x ∈ items /\ x ∈ l) /\
      (every = true <-> forall x, x ∈ items -> x ∈ l) /\
      (every = true -> items <> [] -> some = true) /\
      (a = u -> every = true /\ (some = true <-> l <> [])).
Proof.
  intros a u l items data h Ha Hu.
  exists (existsb (fun x => existsb (same_value_zero x) l) items),
         (forallb (fun x => existsb (same_value_zero x) l) items).
  split; [apply q_in_arrays; assumption|].
  split; [apply q_all_arrays; assumption|].
  split; [apply q_nin_arrays; assumption|].
  split; [apply some_held|].
  split; [apply every_held|].
  split.
  - intros Hall Hne. apply some_held.
    destruct items as [|x items]; [congruence|].
    exists x; split; [left|].
    apply (proj1 (every_held l (x :: items)) Hall); left.
  - intros ->. assert (items = l) by congruence; subst items.
    split; [apply every_held; auto|].
    rewrite some_held; split.
    + intros (x & Hx & _) ->; inversion Hx.
    + destruct l as [|x l']; [congruence|].
      intros _; exists x; split; left.
Qed.

(** The three queries of [[1, 2]] against [[2, 3]]. *)
Lemma queries_on_arrays_witness :
  let h := [[VNum (Int 1); VNum (Int 2)]; [VNum (Int 2); VNum (Int 3)]] in
  exists some every : bool,
    q_in (VArr 0) (VArr 1) VUndef h = Ok some /\
    q_all (VArr 0) (VArr 1) VUndef h = Ok every /\
    q_nin (VArr 0) (VArr 1) VUndef h = Ok (negb some).
Proof.
  intros h.
  destruct (queries_on_arrays 0 1 [VNum (Int 1); VNum (Int 2)]
              [VNum (Int 2); VNum (Int 3)] VUndef h eq_refl eq_refl)
    as (some & every & Hin & Hall & Hnin & _).
  exists some, every; auto.
Defined.

End QuerySets.

(** ** [u$pull] *)

Module PullLaws.
Import SchemaTypeArray FilterLoop.

Lemma filter_keep_all (P : val -> Prop) `{!forall x, Decision (P x)} (l : list val) :
  (forall x, x ∈ l -> P x) -> filter P l = l.
Proof.
  induction l as [|x l IH]; intros Hall; [reflexivity|].
  rewrite filter_cons_True by (apply Hall; left).
  f_equal; apply IH; intros y Hy; apply Hall; right; exact Hy.
Qed.

Lemma differs_strict_eq (update x : val) :
  differs update x = true <-> strict_eq x update = false.
Proof. unfold differs; destruct (strict_eq x update); simpl; split; congruence. Qed.

Lemma outside_not_elem_of (items : list val) (x : val) :
  outside items x = true <-> x ∉ items.
Proof.
  unfold outside; rewrite <- AddToSetFacts.includes_not_elem_of.
  destruct (existsb _ items); simpl; split; congruence.
Qed.

Lemma strict_eq_other (x y : val) : x <> y -> strict_eq x y = false.
Proof.
  intros H; destruct (strict_eq x y) eqn:E; [|reflexivity].
  destruct H; apply MatchFacts.strict_eq_true, E.
Qed.

Lemma strict_eq_same (x : val) : x <> VNum NaN -> strict_eq x x = true.
Proof.
  intros H; destruct x as [| |b|[z|]|a]; try congruence;
    apply bool_decide_eq_true; reflexivity.
Qed.

Lemma strict_eq_NaN (x : val) : strict_eq x (VNum NaN) = false.
Proof. destruct x as [| |b|[z|]|a]; reflexivity. Qed.

Lemma u_pull_element a l update data h :
  isArray update = false -> h !! a = Some l ->
  u_pull (VArr a) update data h
  = (Ok (VArr (length h)), h ++ [filter (fun x => strict_eq x update = false) l]).
Proof.
  intros Hupd Ha; rewrite (PullFacts.u_pull_single a l update data h Hupd Ha).
  do 3 f_equal; apply list_filter_iff; intros x; apply differs_strict_eq.
Qed.

Lemma u_pull_elements a u l items data h :
  h !! a = Some l -> h !! u = Some items ->
  u_pull (VArr a) (VArr u) data h
  = (Ok (VArr (length h)), h ++ [filter (fun x => x ∉ items) l]).
Proof.
  intros Ha Hu; rewrite (PullFacts.u_pull_array a u l items data h Ha Hu).
  do 3 f_equal; apply list_filter_iff; intros x; apply outside_not_elem_of.
Qed.

(** X6.  [u$pull] keeps, in a new array and in their order, the elements
    of the value that the operand does not name, and leaves the value and
    the operand as they were.  An operand that is not an array names the
    elements strictly equal to it; an operand that is an array names the
    elements it holds.  Pulling an array from itself leaves nothing. *)
Theorem u_pull_keeps_the_rest :
  forall a l data h,
    h !! a = Some l ->
    (forall update,
        isArray update = false ->
        exists kept,
          u_pull (VArr a) update data h = (Ok (VArr (length h)), h ++ [kept]) /\
          kept = filter (fun x => strict_eq x update = false) l /\
          sublist kept l /\
          (forall x, x ∈ kept <-> x ∈ l /\ strict_eq x update = false)) /\
    (forall u items,
        h !! u = Some items ->
        exists kept,
          u_pull (VArr a) (VArr u) data h = (Ok (VArr (length h)), h ++ [kept]) /\
          kept = filter (fun x => x ∉ items) l /\
          sublist kept l /\
          (forall x, x ∈ kept <-> x ∈ l /\ x ∉ items)) /\
    u_pull (VArr a) (VArr a) data h = (Ok (VArr (length h)), h ++ [[]]).
Proof.
  intros a l data h Ha; split; [|split].
  - intros update Hupd; eexists.
    split; [apply u_pull_element; eassumption|].
    split; [reflexivity|].
    split; [apply sublist_filter|].
    intros x; rewrite list_elem_of_filter; tauto.
  - intros u items Hu; eexists.
    split; [apply u_pull_elements; eassumption|].
    split; [reflexivity|].
    split; [apply sublist_filter|].
    intros x; rewrite list_elem_of_filter; tauto.
  - rewrite (u_pull_elements a a l l data h Ha Ha).
    do 3 f_equal.
    destruct (filter (fun x => x ∉ l) l) as [|x kept] eqn:E; [reflexivity|].
    assert (Hx : x ∈ filter (fun x => x ∉ l) l) by (rewrite E; left).
    apply list_elem_of_filter in Hx; tauto.
Qed.

(** Pulling 2 from [[1, 2, 3, 2]]. *)
Lemma u_pull_keeps_the_rest_witness :
  let l := [VNum (Int 1); VNum (Int 2); VNum (Int 3); VNum (Int 2)] in
  exists kept,
    u_pull (VArr 0) (VNum (Int 2)) VUndef [l] = (Ok (VArr 1), [l; kept]) /\
    kept = [VNum (Int 1); VNum (Int 3)].
Proof.
  intros l.
  destruct (u_pull_keeps_the_rest 0 l VUndef [l] eq_refl) as (Hone & _).
  destruct (Hone (VNum (Int 2)) eq_refl) as (kept & Hrun & Hkept & _).
  exists kept; split; [exact Hrun|].
  rewrite Hkept; reflexivity.
Defined.

(** X7.  The sides of [u$pull] that are not plain.  A falsy value is
    returned as it is.  A truthy value that is not an array, a boolean or
    a number, has no [filter]: a TypeError.  The operand NaN removes
    nothing, NaN being strictly equal to nothing, so the result is a copy
    of the array; the operand [[NaN]] removes every NaN, membership in an
    array holding NaN for NaN. *)
Theorem u_pull_edges :
  (forall v update data h,
      truthy v = false -> u_pull v update data h = (Ok v, h)) /\
  (forall v update data h,
      truthy v = true -> isArray v = false ->
      u_pull v update data h = (Throw (TypeError MNotFunction), h)) /\
  (forall a l data h,
      h !! a = Some l ->
      u_pull (VArr a) (VNum NaN) data h = (Ok (VArr (length h)), h ++ [l])) /\
  (forall a u l data h,
      h !! a = Some l -> h !! u = Some [VNum NaN] ->
      exists kept,
        u_pull (VArr a) (VArr u) data h = (Ok (VArr (length h)), h ++ [kept]) /\
        (VNum NaN ∉ kept) /\
        (forall x, x <> VNum NaN -> x ∈ l -> x ∈ kept)).
Proof.
  split; [|split; [|split]].
  - intros v update data h Hv; unfold u_pull; rewrite Hv; reflexivity.
  - intros v update data h Hv Harr; unfold u_pull; rewrite Hv; simpl.
    destruct v as [| |b|n|a]; try discriminate; destruct (isArray update); reflexivity.
  - intros a l data h Ha.
    rewrite (u_pull_element a l (VNum NaN) data h eq_refl Ha).
    rewrite filter_keep_all; [reflexivity|].
    intros x _; apply strict_eq_NaN.
  - intros a u l data h Ha Hu; eexists.
    split; [apply u_pull_elements; eassumption|].
    split.
    + intros H; apply list_elem_of_filter in H; destruct H as [H _].
      apply H; left.
    + intros x Hx Hl; apply list_elem_of_filter; split; [|exact Hl].
      intros H; apply list_elem_of_singleton in H; contradiction.
Qed.

Lemma u_pull_edges_witness :
  let l := [VNum NaN; VNum (Int 1)] in
  u_pull VNull (VNum (Int 1)) VUndef [l] = (Ok VNull, [l]) /\
  u_pull (VNum (Int 7)) (VNum (Int 1)) VUndef [l]
    = (Throw (TypeError MNotFunction), [l]) /\
  u_pull (VArr 0) (VNum NaN) VUndef [l] = (Ok (VArr 1), [l; l]) /\
  exists kept,
    u_pull (VArr 0) (VArr 1) VUndef [l; [VNum NaN]]
      = (Ok (VArr 2), [l; [VNum NaN]; kept]) /\
    VNum NaN ∉ kept.
Proof.
  intros l. destruct u_pull_edges as (H1 & H2 & H3 & H4).
  split; [apply (H1 VNull (VNum (Int 1)) VUndef [l]); reflexivity|].
  split; [apply (H2 (VNum (Int 7)) (VNum (Int 1)) VUndef [l]); reflexivity|].
  split; [apply (H3 0 l VUndef [l]); reflexivity|].
  destruct (H4 0 1 l VUndef [l; [VNum NaN]] eq_refl eq_refl)
    as (kept & Hrun & Hnan & _).
  exists kept; split; [exact Hrun|exact Hnan].
Defined.

(** X8.  [u$pull] is idempotent: pulling the same operand from its result
    gives an array of the same elements. *)
Theorem u_pull_idempotent :
  forall a l update data h,
    h !! a = Some l ->
    (isArray update = true -> exists u items, update = VArr u /\ h !! u = Some items) ->
    exists r kept h1,
      u_pull (VArr a) update data h = (Ok (VArr r), h1) /\
      h1 !! r = Some kept /\
      u_pull (VArr r) update data h1 = (Ok (VArr (length h1)), h1 ++ [kept]).
Proof.
  intros a l update data h Ha Hupd.
  destruct (isArray update) eqn:Harr.
  - destruct (Hupd eq_refl) as (u & items & -> & Hu).
    exists (length h), (filter (fun x => x ∉ items) l), (h ++ [filter (fun x => x ∉ items) l]).
    split; [apply u_pull_elements; assumption|].
    split; [apply list_lookup_middle; reflexivity|].
    rewrite (u_pull_elements (length h) u (filter (fun x => x ∉ items) l) items data);
      [|apply list_lookup_middle; reflexivity
       |apply lookup_app_l_Some; exact Hu].
    rewrite list_filter_filter_r by auto; reflexivity.
  - exists (length h), (filter (fun x => strict_eq x update = false) l),
           (h ++ [filter (fun x => strict_eq x update = false) l]).
    split; [apply u_pull_element; assumption|].
    split; [apply list_lookup_middle; reflexivity|].
    rewrite (u_pull_element (length h) (filter (fun x => strict_eq x update = false) l)
               update data);
      [|exact Harr|apply list_lookup_middle; reflexivity].
    rewrite list_filter_filter_r by auto; reflexivity.
Qed.

Lemma u_pull_idempotent_witness :
  let l := [VNum (Int 1); VNum (Int 2); VNum (Int 3)] in
  exists r kept h1,
    u_pull (VArr 0) (VArr 1) VUndef [l; [VNum (Int 2)]] = (Ok (VArr r), h1) /\
    h1 !! r = Some kept /\
    u_pull (VArr r) (VArr 1) VUndef h1 = (Ok (VArr (length h1)), h1 ++ [kept]).
Proof.
  intros l.
  apply (u_pull_idempotent 0 l (VArr 1) VUndef [l; [VNum (Int 2)]] eq_refl).
  intros _; exists 1, [VNum (Int 2)]; split; reflexivity.
Defined.

(** X9.  [u$pull] undoes [u$push].  After an element that is not NaN has
    been pushed on an array, pulling it gives what pulling it from the
    array as it was gives; when the array did not hold the element, that
    is the array's old content.  And from the array that [u$push] makes of
    an array and an operand array, pulling the operand gives what pulling
    it from the first array gives. *)
Theorem u_pull_after_u_push :
  forall a l data h,
    h !! a = Some l ->
    (forall x,
        isArray x = false -> x <> VNum NaN ->
        exists h1 kept,
          u_push (VArr a) x data h = (Ok (VArr a), h1) /\
          u_pull (VArr a) x data h1 = (Ok (VArr (length h1)), h1 ++ [kept]) /\
          u_pull (VArr a) x data h = (Ok (VArr (length h)), h ++ [kept]) /\
          (x ∉ l -> kept = l)) /\
    (forall u items,
        h !! u = Some items ->
        exists r h1 kept,
          u_push (VArr a) (VArr u) data h = (Ok (VArr r), h1) /\
          u_pull (VArr r) (VArr u) data h1 = (Ok (VArr (length h1)), h1 ++ [kept]) /\
          u_pull (VArr a) (VArr u) data h = (Ok (VArr (length h)), h ++ [kept]) /\
          ((forall y, y ∈ items -> y ∉ l) -> kept = l)).
Proof.
  intros a l data h Ha; split.
  - intros x Hx Hnan.
    exists (<[a := l ++ [x]]> h), (filter (fun y => strict_eq y x = false) l).
    split; [apply PushFacts.u_push_element; assumption|].
    split.
    + rewrite (u_pull_element a (l ++ [x]) x data _ Hx (heap_insert_lookup _ _ _ _ Ha)).
      rewrite filter_app, filter_cons_False, filter_nil, app_nil_r;
        [reflexivity|].
      rewrite (strict_eq_same x Hnan); discriminate.
    + split; [apply u_pull_element; assumption|].
      intros Hl; apply filter_keep_all.
      intros y Hy; apply strict_eq_other; intros ->; contradiction.
  - intros u items Hu.
    exists (length h), (h ++ [l ++ items]), (filter (fun y => y ∉ items) l).
    split; [apply PushFacts.u_push_array; assumption|].
    split.
    + rewrite (u_pull_elements (length h) u (l ++ items) items data);
        [|apply list_lookup_middle; reflexivity
         |apply lookup_app_l_Some; exact Hu].
      rewrite filter_app.
      replace (filter (fun y => y ∉ items) items) with (@nil val);
        [rewrite app_nil_r; reflexivity|].
      destruct (filter (fun y => y ∉ items) items) as [|y kept] eqn:E; [reflexivity|].
      assert (Hy : y ∈ filter (fun y => y ∉ items) items) by (rewrite E; left).
      apply list_elem_of_filter in Hy; tauto.
    + split; [apply u_pull_elements; assumption|].
      intros Hl; apply filter_keep_all.
      intros y Hy Hin; exact (Hl y Hin Hy).
Qed.

Lemma u_pull_after_u_push_witness :
  let l := [VNum (Int 1); VNum (Int 2)] in
  exists h1 kept,
    u_push (VArr 0) (VNum (Int 3)) VUndef [l] = (Ok (VArr 0), h1) /\
    u_pull (VArr 0) (VNum (Int 3)) VUndef h1
      = (Ok (VArr (length h1)), h1 ++ [kept]) /\
    kept = l.
Proof.
  intros l.
  destruct (u_pull_after_u_push 0 l VUndef [l] eq_refl) as (Hone & _).
  destruct (Hone (VNum (Int 3)) eq_refl) as (h1 & kept & Hpush & Hpull & _ & Hkept);
    [discriminate|].
  exists h1, kept; split; [exact Hpush|]. split; [exact Hpull|].
  apply Hkept. intros H; apply list_elem_of_In in H; simpl in H.
  destruct H as [H|[H|[]]]; discriminate.
Defined.

(** X10.  After [u$pull] with an operand array the result shares no
    element with the operand: [q$nin] of the result and the operand is
    true and [q$in] is false. *)
Theorem q_nin_after_u_pull :
  forall a u l items data h,
    h !! a = Some l -> h !! u = Some items ->
    exists r h1,
      u_pull (VArr a) (VArr u) data h = (Ok (VArr r), h1) /\
      q_nin (VArr r) (VArr u) data h1 = Ok true /\
      q_in (VArr r) (VArr u) data h1 = Ok false.
Proof.
  intros a u l items data h Ha Hu.
  exists (length h), (h ++ [filter (fun x => x ∉ items) l]).
  split; [apply u_pull_elements; assumption|].
  assert (Hr : (h ++ [filter (fun x => x ∉ items) l]) !! length h
               = Some (filter (fun x => x ∉ items) l))
    by (apply list_lookup_middle; reflexivity).
  assert (Hu1 : (h ++ [filter (fun x => x ∉ items) l]) !! u = Some items)
    by (apply lookup_app_l_Some; exact Hu).
  rewrite (QuerySets.q_nin_arrays _ _ _ _ data _ Hr Hu1).
  rewrite (QuerySets.q_in_arrays _ _ _ _ data _ Hr Hu1).
  destruct (existsb _ items) eqn:E; [|split; reflexivity].
  apply QuerySets.some_held in E; destruct E as (x & Hx & Hkept).
  apply list_elem_of_filter in Hkept; tauto.
Qed.

Lemma q_nin_after_u_pull_witness :
  let h := [[VNum (Int 1); VNum (Int 2); VNum (Int 3)]; [VNum (Int 2); VNum (Int 4)]] in
  exists r h1,
    u_pull (VArr 0) (VArr 1) VUndef h = (Ok (VArr r), h1) /\
    q_nin (VArr r) (VArr 1) VUndef h1 = Ok true /\
    q_in (VArr r) (VArr 1) VUndef h1 = Ok false.
Proof.
  intros h.
  apply (q_nin_after_u_pull 0 1 [VNum (Int 1); VNum (Int 2); VNum (Int 3)]
           [VNum (Int 2); VNum (Int 4)] VUndef h); reflexivity.
Defined.

End PullLaws.

(** ** [u$addToSet] with the queries and with [u$pull] *)

Module AddToSetLaws.
Import SchemaTypeArray Loops.

Lemma add_missing_holds (l items : list val) (x : val) :
  x ∈ items -> x ∈ add_missing l items.
Proof.
  intros Hx.
  destruct (AddToSetFacts.add_missing_spec items l) as (new & -> & _ & Hnew & _).
  apply elem_of_app.
  destruct (decide (x ∈ l)) as [Hl|Hl]; [left; exact Hl|].
  right; apply Hnew; split; assumption.
Qed.

Lemma add_missing_keeps (l items : list val) (x : val) :
  x ∈ l -> x ∈ add_missing l items.
Proof.
  intros Hx.
  destruct (AddToSetFacts.add_missing_spec items l) as (new & -> & _).
  apply elem_of_app; left; exact Hx.
Qed.

(** The store after [u$addToSet] of the array at [u] to the array at [a]. *)
Lemma added_store a u l items (h : heap) :
  h !! a = Some l -> h !! u = Some items ->
  <[a := add_missing l items]> h !! a = Some (add_missing l items) /\
  <[a := add_missing l items]> h !! u = Some items.
Proof.
  intros Ha Hu; split; [apply (heap_insert_lookup _ _ _ _ Ha)|].
  destruct (decide (a = u)) as [->|Hne].
  - assert (items = l) by congruence; subst items.
    rewrite AddToSetFacts.add_missing_present by auto.
    rewrite (list_insert_id _ _ _ Ha); exact Ha.
  - rewrite list_lookup_insert_ne by exact Hne; exact Hu.
Qed.

(** X11.  [u$addToSet] is idempotent: adding the same operand, an element
    or an array, a second time changes nothing. *)
Theorem u_addToSet_idempotent :
  forall a l update data h,
    h !! a = Some l ->
    (isArray update = true -> exists u items, update = VArr u /\ h !! u = Some items) ->
    exists h1,
      u_addToSet (VArr a) update data h = (Ok (VArr a), h1) /\
      u_addToSet (VArr a) update data h1 = (Ok (VArr a), h1).
Proof.
  intros a l update data h Ha Hupd.
  destruct (isArray update) eqn:Harr.
  - destruct (Hupd eq_refl) as (u & items & -> & Hu).
    exists (<[a := add_missing l items]> h).
    split; [apply AddToSetFacts.u_addToSet_array; assumption|].
    destruct (added_store a u l items h Ha Hu) as (Ha1 & Hu1).
    rewrite (AddToSetFacts.u_addToSet_array a u _ items data _ Ha1 Hu1).
    rewrite AddToSetFacts.add_missing_present by (intros x; apply add_missing_holds).
    rewrite list_insert_insert_eq; reflexivity.
  - exists (<[a := if bool_decide (update ∈ l) then l else l ++ [update]]> h).
    split; [apply AddToSetFacts.u_addToSet_single; assumption|].
    rewrite (AddToSetFacts.u_addToSet_single a _ update data _ Harr
               (heap_insert_lookup _ _ _ _ Ha)).
    rewrite list_insert_insert_eq.
    rewrite (bool_decide_eq_true_2 (update ∈ _)); [reflexivity|].
    case_bool_decide as Hin; [exact Hin|].
    apply elem_of_app; right; left.
Qed.

Lemma u_addToSet_idempotent_witness :
  let h := [[VNum (Int 1)]; [VNum (Int 1); VNum (Int 2)]] in
  exists h1,
    u_addToSet (VArr 0) (VArr 1) VUndef h = (Ok (VArr 0), h1) /\
    u_addToSet (VArr 0) (VArr 1) VUndef h1 = (Ok (VArr 0), h1).
Proof.
  intros h.
  apply (u_addToSet_idempotent 0 [VNum (Int 1)] (VArr 1) VUndef h eq_refl).
  intros _; exists 1, [VNum (Int 1); VNum (Int 2)]; split; reflexivity.
Defined.

(** X12.  After [u$addToSet] the array holds the operand.  With an operand
    array, [q$all] of the array and the operand is true, and so is [q$in]
    unless the operand is empty; with a single operand, [q$in] is true for
    every query array that holds the operand.  No element the array had is
    lost. *)
Theorem q_all_after_u_addToSet :
  forall a l data h,
    h !! a = Some l ->
    (forall u items,
        h !! u = Some items ->
        exists h1 l1,
          u_addToSet (VArr a) (VArr u) data h = (Ok (VArr a), h1) /\
          h1 !! a = Some l1 /\
          (forall x, x ∈ l -> x ∈ l1) /\
          q_all (VArr a) (VArr u) data h1 = Ok true /\
          (items <> [] -> q_in (VArr a) (VArr u) data h1 = Ok true)) /\
    (forall x q qs,
        isArray x = false -> q <> a -> h !! q = Some qs -> x ∈ qs ->
        exists h1 l1,
          u_addToSet (VArr a) x data h = (Ok (VArr a), h1) /\
          h1 !! a = Some l1 /\
          (forall y, y ∈ l -> y ∈ l1) /\
          q_in (VArr a) (VArr q) data h1 = Ok true).
Proof.
  intros a l data h Ha; split.
  - intros u items Hu.
    exists (<[a := add_missing l items]> h), (add_missing l items).
    split; [apply AddToSetFacts.u_addToSet_array; assumption|].
    destruct (added_store a u l items h Ha Hu) as (Ha1 & Hu1).
    split; [exact Ha1|].
    split; [intros x; apply add_missing_keeps|].
    rewrite (QuerySets.q_all_arrays _ _ _ _ data _ Ha1 Hu1).
    rewrite (QuerySets.q_in_arrays _ _ _ _ data _ Ha1 Hu1).
    split.
    + f_equal; apply QuerySets.every_held; intros x; apply add_missing_holds.
    + intros Hne; f_equal; apply QuerySets.some_held.
      destruct items as [|x items]; [congruence|].
      exists x; split; [left|apply add_missing_holds; left].
  - intros x q qs Hx Hq Hqs Hin.
    exists (<[a := if bool_decide (x ∈ l) then l else l ++ [x]]> h),
           (if bool_decide (x ∈ l) then l else l ++ [x]).
    split; [apply AddToSetFacts.u_addToSet_single; assumption|].
    pose proof (heap_insert_lookup h a l
                  (if bool_decide (x ∈ l) then l else l ++ [x]) Ha) as Ha1.
    split; [exact Ha1|].
    split.
    + intros y Hy; case_bool_decide; [exact Hy|apply elem_of_app; left; exact Hy].
    + rewrite (QuerySets.q_in_arrays a q _ qs data _ Ha1)
        by (rewrite list_lookup_insert_ne by congruence; exact Hqs).
      f_equal; apply QuerySets.some_held.
      exists x; split; [exact Hin|].
      case_bool_decide as Hl; [exact Hl|apply elem_of_app; right; left].
Qed.

Lemma q_all_after_u_addToSet_witness :
  let h := [[VNum (Int 1)]; [VNum (Int 1); VNum (Int 2)]] in
  exists h1 l1,
    u_addToSet (VArr 0) (VArr 1) VUndef h = (Ok (VArr 0), h1) /\
    h1 !! 0 = Some l1 /\
    q_all (VArr 0) (VArr 1) VUndef h1 = Ok true.
Proof.
  intros h.
  destruct (q_all_after_u_addToSet 0 [VNum (Int 1)] VUndef h eq_refl) as (Harr & _).
  destruct (Harr 1 [VNum (Int 1); VNum (Int 2)] eq_refl)
    as (h1 & l1 & Hrun & Hl1 & _ & Hall & _).
  exists h1, l1; auto.
Defined.

(** X13.  [u$pull] undoes [u$addToSet]: after an operand array has been
    added to an array, pulling the operand gives what pulling it from the
    array as it was gives, and the array's old content when the array
    held no element of the operand. *)
Theorem u_pull_after_u_addToSet :
  forall a u l items data h,
    h !! a = Some l -> h !! u = Some items ->
    exists h1 kept,
      u_addToSet (VArr a) (VArr u) data h = (Ok (VArr a), h1) /\
      u_pull (VArr a) (VArr u) data h1 = (Ok (VArr (length h1)), h1 ++ [kept]) /\
      u_pull (VArr a) (VArr u) data h = (Ok (VArr (length h)), h ++ [kept]) /\
      ((forall y, y ∈ items -> y ∉ l) -> kept = l).
Proof.
  intros a u l items data h Ha Hu.
  exists (<[a := add_missing l items]> h), (filter (fun y => y ∉ items) l).
  split; [apply AddToSetFacts.u_addToSet_array; assumption|].
  destruct (added_store a u l items h Ha Hu) as (Ha1 & Hu1).
  split; [|split].
  - rewrite (PullLaws.u_pull_elements a u _ items data _ Ha1 Hu1).
    destruct (AddToSetFacts.add_missing_spec items l) as (new & -> & _ & Hnew & _).
    rewrite filter_app.
    replace (filter (fun y => y ∉ items) new) with (@nil val);
      [rewrite app_nil_r; reflexivity|].
    destruct (filter (fun y => y ∉ items) new) as [|y kept] eqn:E; [reflexivity|].
    assert (Hy : y ∈ filter (fun y => y ∉ items) new) by (rewrite E; left).
    apply list_elem_of_filter in Hy; destruct Hy as (Hy1 & Hy2).
    apply Hnew in Hy2; tauto.
  - apply PullLaws.u_pull_elements; assumption.
  - intros Hl; apply PullLaws.filter_keep_all.
    intros y Hy Hin; exact (Hl y Hin Hy).
Qed.

Lemma u_pull_after_u_addToSet_witness :
  let h := [[VNum (Int 1)]; [VNum (Int 2); VNum (Int 3)]] in
  exists h1 kept,
    u_addToSet (VArr 0) (VArr 1) VUndef h = (Ok (VArr 0), h1) /\
    u_pull (VArr 0) (VArr 1) VUndef h1 = (Ok (VArr (length h1)), h1 ++ [kept]) /\
    u_pull (VArr 0) (VArr 1) VUndef h = (Ok (VArr (length h)), h ++ [kept]).
Proof.
  intros h.
  destruct (u_pull_after_u_addToSet 0 1 [VNum (Int 1)] [VNum (Int 2); VNum (Int 3)]
              VUndef h eq_refl eq_refl) as (h1 & kept & H1 & H2 & H3 & _).
  exists h1, kept; auto.
Defined.

(** X14.  The sides of [u$addToSet] that are not arrays.  On a falsy value
    it returns the operand itself when that is an array, without a copy,
    and a new array of one element otherwise.  On a truthy value that is
    not an array, a boolean or a number, it throws a TypeError with a
    single operand and with an operand array that is not empty, and
    returns the value as it is with the empty array. *)
Theorem u_addToSet_without_array :
  (forall v u data h,
      truthy v = false -> u_addToSet v (VArr u) data h = (Ok (VArr u), h)) /\
  (forall v x data h,
      truthy v = false -> isArray x = false ->
      u_addToSet v x data h = (Ok (VArr (length h)), h ++ [[x]])) /\
  (forall v x data h,
      truthy v = true -> isArray v = false -> isArray x = false ->
      u_addToSet v x data h = (Throw (TypeError MNotFunction), h)) /\
  (forall v u items data h,
      truthy v = true -> isArray v = false -> h !! u = Some items ->
      u_addToSet v (VArr u) data h
      = (match items with
         | [] => Ok v
         | _ :: _ => Throw (TypeError MNotFunction)
         end, h)).
Proof.
  split; [|split; [|split]].
  - intros v u data h Hv; unfold u_addToSet; simpl; rewrite Hv; reflexivity.
  - intros v x data h Hv Hx; unfold u_addToSet; rewrite Hx, Hv; reflexivity.
  - intros v x data h Hv Harr Hx; unfold u_addToSet; rewrite Hx, Hv.
    destruct v as [| |b|n|a]; try discriminate; reflexivity.
  - intros v u items data h Hv Harr Hu.
    rewrite AddToSetFacts.u_addToSet_unfold_array by exact Hv.
    unfold bind at 1, liftO; simpl.
    rewrite (elems_lookup _ _ _ Hu); cbn [default from_option bound]; unfold id.
    destruct items as [|x items]; [reflexivity|].
    cbn [length for_loop]; unfold bind, add_body, bind, liftO.
    destruct v as [| |b|n|a]; try discriminate; reflexivity.
Qed.

Lemma u_addToSet_without_array_witness :
  let h := [[VNum (Int 1)]; []] in
  u_addToSet VNull (VArr 0) VUndef h = (Ok (VArr 0), h) /\
  u_addToSet VUndef (VNum (Int 1)) VUndef h = (Ok (VArr 2), h ++ [[VNum (Int 1)]]) /\
  u_addToSet (VNum (Int 5)) (VNum (Int 1)) VUndef h
    = (Throw (TypeError MNotFunction), h) /\
  u_addToSet (VNum (Int 5)) (VArr 0) VUndef h = (Throw (TypeError MNotFunction), h) /\
  u_addToSet (VNum (Int 5)) (VArr 1) VUndef h = (Ok (VNum (Int 5)), h).
Proof.
  intros h. destruct u_addToSet_without_array as (H1 & H2 & H3 & H4).
  split; [apply (H1 VNull 0 VUndef h); reflexivity|].
  split; [apply (H2 VUndef (VNum (Int 1)) VUndef h); reflexivity|].
  split; [apply (H3 (VNum (Int 5)) (VNum (Int 1)) VUndef h); reflexivity|].
  split.
  - apply (H4 (VNum (Int 5)) 0 [VNum (Int 1)] VUndef h); reflexivity.
  - apply (H4 (VNum (Int 5)) 1 [] VUndef h); reflexivity.
Defined.

End AddToSetLaws.

(** ** [u$shift] and [u$pop] against each other *)

Module ShiftPopLaws.
Import SchemaTypeArray.

(** X15.  [u$pop] with a number is [u$shift] with the opposite number, on
    every value and every number, NaN and the counts past the length
    included: the same result, the same error, the same store. *)
Theorem u_pop_is_u_shift_of_opposite :
  forall v n data h,
    u_pop v (CNum n) data h = u_shift v (CNum (neg n)) data h.
Proof.
  intros v n data h; unfold u_pop, u_shift.
  destruct n as [z|]; cbn [count_val neg to_number truthy];
    [|rewrite !orb_true_r; reflexivity].
  destruct (Z.eqb_spec z 0) as [->|Hz]; [rewrite !orb_true_r; reflexivity|].
  rewrite (proj2 (Z.eqb_neq (- z) 0)) by lia.
  rewrite !orb_false_r.
  destruct (truthy v) eqn:Hv; cbn [negb]; [|reflexivity].
  unfold bind, liftO; cbn [strict_eq gt_zero].
  rewrite !bool_decide_eq_false_2 by discriminate.
  destruct (Z.ltb_spec 0 z) as [Hpos|Hneg].
  - rewrite (proj2 (Z.ltb_ge 0 (- z))) by lia.
    destruct v as [| |b|m|a]; try discriminate; reflexivity.
  - rewrite (proj2 (Z.ltb_lt 0 (- z))) by lia.
    destruct v as [| |b|m|a]; try discriminate; reflexivity.
Qed.

(** X16.  Within the length of the array, [u$shift] with [n] gives the
    elements after the first [n] and [u$pop] with [n] those before the
    last [n], each in a new array, the value staying as it was; true
    counts as 1.  So the result of [u$pop] with [n] followed by that of
    [u$shift] with the rest of the length is the array.  A falsy count
    (0, false, NaN) returns the value itself. *)
Theorem u_shift_u_pop_split :
  forall a l data h,
    h !! a = Some l ->
    (forall n,
        0 < n <= length l ->
        u_shift (VArr a) (CNum (Int (Z.of_nat n))) data h
          = (Ok (VArr (length h)), h ++ [drop n l]) /\
        u_pop (VArr a) (CNum (Int (Z.of_nat n))) data h
          = (Ok (VArr (length h)), h ++ [take (length l - n) l])) /\
    u_shift (VArr a) (CBool true) data h
      = u_shift (VArr a) (CNum (Int 1)) data h /\
    u_pop (VArr a) (CBool true) data h
      = u_pop (VArr a) (CNum (Int 1)) data h /\
    (forall n,
        0 < n < length l ->
        exists front back,
          u_pop (VArr a) (CNum (Int (Z.of_nat n))) data h
            = (Ok (VArr (length h)), h ++ [front]) /\
          u_shift (VArr a) (CNum (Int (Z.of_nat (length l - n)))) data h
            = (Ok (VArr (length h)), h ++ [back]) /\
          front ++ back = l /\ length back = n) /\
    (forall c,
        truthy (count_val c) = false ->
        u_shift (VArr a) c data h = (Ok (VArr a), h) /\
        u_pop (VArr a) c data h = (Ok (VArr a), h)).
Proof.
  intros a l data h Ha.
  split; [|split; [|split; [|split]]].
  - intros n Hn; split.
    + rewrite (ShiftPopFacts.u_shift_pos a l h data Ha n) by lia; reflexivity.
    + rewrite (ShiftPopFacts.u_pop_pos a l h data Ha n) by lia; reflexivity.
  - rewrite (ShiftPopFacts.u_shift_true a l h data Ha).
    change (Int 1) with (Int (Z.of_nat 1)).
    rewrite (ShiftPopFacts.u_shift_pos a l h data Ha 1) by lia; reflexivity.
  - rewrite (ShiftPopFacts.u_pop_true a l h data Ha).
    change (Int 1) with (Int (Z.of_nat 1)).
    destruct (decide (length l = 0)) as [Hnil|Hcons].
    + rewrite (ShiftPopFacts.u_pop_pos_over a l h data Ha 1) by lia.
      destruct l; [reflexivity|discriminate].
    + rewrite (ShiftPopFacts.u_pop_pos a l h data Ha 1) by lia; reflexivity.
  - intros n Hn.
    exists (take (length l - n) l), (drop (length l - n) l).
    split.
    + rewrite (ShiftPopFacts.u_pop_pos a l h data Ha n) by lia; reflexivity.
    + split.
      * rewrite (ShiftPopFacts.u_shift_pos a l h data Ha (length l - n)) by lia.
        reflexivity.
      * split; [apply take_drop|rewrite length_drop; lia].
  - intros c Hc; unfold u_shift, u_pop; rewrite Hc, !orb_true_r; auto.
Qed.

(** Two from the back and two from the front of [[1, 2, 3, 4]]. *)
Lemma u_shift_u_pop_split_witness :
  let l := [VNum (Int 1); VNum (Int 2); VNum (Int 3); VNum (Int 4)] in
  u_shift (VArr 0) (CNum (Int 2)) VUndef [l]
    = (Ok (VArr 1), [l; [VNum (Int 3); VNum (Int 4)]]) /\
  u_pop (VArr 0) (CNum (Int 2)) VUndef [l]
    = (Ok (VArr 1), [l; [VNum (Int 1); VNum (Int 2)]]).
Proof.
  intros l.
  destruct (u_shift_u_pop_split 0 l VUndef [l] eq_refl) as (Hin & _).
  apply (Hin 2); simpl; lia.
Defined.

End ShiftPopLaws.

(** ** [q$size] after the update operators *)

Module SizeLaws.
Import SchemaTypeArray.

Lemma q_size_array a l query data h :
  h !! a = Some l ->
  (q_size (VArr a) query data h = Ok true
   <-> query = VNum (Int (Z.of_nat (length l)))).
Proof.
  intros Ha; unfold q_size; cbn [truthy get_length mapO bindO len_val].
  rewrite (elems_lookup _ _ _ Ha); split.
  - intros [= H]; symmetry; apply MatchFacts.strict_eq_true, H.
  - intros ->; f_equal; apply bool_decide_eq_true; reflexivity.
Qed.

(** X17.  [q$size] answers true for the number of elements and for
    nothing else, and follows the update operators: one more after
    [u$push] or [u$unshift] of an element, the sum of the two lengths for
    the array [u$push] makes of two arrays, [n] less for the result of
    [u$pop] or [u$shift] with [n] within the length.  On undefined, null,
    booleans, numbers and arrays it never throws: a falsy one has size 0,
    and for true and for a number other than 0 and NaN, which have no
    length, only the query undefined is true. *)
Theorem q_size_follows_updates :
  (forall a l data h,
      h !! a = Some l ->
      (forall query,
          q_size (VArr a) query data h = Ok true
          <-> query = VNum (Int (Z.of_nat (length l)))) /\
      (forall x,
          isArray x = false ->
          exists h1 h2,
            u_push (VArr a) x data h = (Ok (VArr a), h1) /\
            u_unshift (VArr a) x data h = (Ok (VArr a), h2) /\
            forall query,
              (q_size (VArr a) query data h1 = Ok true
               <-> query = VNum (Int (Z.of_nat (length l + 1)))) /\
              (q_size (VArr a) query data h2 = Ok true
               <-> query = VNum (Int (Z.of_nat (length l + 1))))) /\
      (forall u items,
          h !! u = Some items ->
          exists r h1,
            u_push (VArr a) (VArr u) data h = (Ok (VArr r), h1) /\
            forall query,
              q_size (VArr r) query data h1 = Ok true
              <-> query = VNum (Int (Z.of_nat (length l + length items)))) /\
      (forall n,
          0 < n <= length l ->
          exists r1 h1 r2 h2,
            u_pop (VArr a) (CNum (Int (Z.of_nat n))) data h = (Ok (VArr r1), h1) /\
            u_shift (VArr a) (CNum (Int (Z.of_nat n))) data h = (Ok (VArr r2), h2) /\
            forall query,
              (q_size (VArr r1) query data h1 = Ok true
               <-> query = VNum (Int (Z.of_nat (length l - n)))) /\
              (q_size (VArr r2) query data h2 = Ok true
               <-> query = VNum (Int (Z.of_nat (length l - n)))))) /\
  (forall v query data h,
      truthy v = false ->
      q_size v query data h = Ok (strict_eq (VNum (Int 0)) query)) /\
  (forall v query data h,
      v = VBool true \/ (exists z, z <> 0%Z /\ v = VNum (Int z)) ->
      q_size v query data h = Ok (strict_eq VUndef query)) /\
  (forall v query data h, exists b, q_size v query data h = Ok b).
Proof.
  split; [|split; [|split]].
  - intros a l data h Ha.
    split; [intros query; apply q_size_array, Ha|].
    split; [|split].
    + intros x Hx.
      exists (<[a := l ++ [x]]> h), (<[a := x :: l]> h).
      split; [apply PushFacts.u_push_element; assumption|].
      split; [apply PushFacts.u_unshift_element; assumption|].
      intros query; split.
      * rewrite (q_size_array a (l ++ [x]) query data _
                   (heap_insert_lookup _ _ _ _ Ha)).
        rewrite length_app; reflexivity.
      * rewrite (q_size_array a (x :: l) query data _
                   (heap_insert_lookup _ _ _ _ Ha)).
        cbn [length]; rewrite Nat.add_1_r; reflexivity.
    + intros u items Hu.
      exists (length h), (h ++ [l ++ items]).
      split; [apply PushFacts.u_push_array; assumption|].
      intros query.
      rewrite (q_size_array (length h) (l ++ items) query data _
                 (list_lookup_middle h [] (l ++ items) (length h) eq_refl)).
      rewrite length_app; reflexivity.
    + intros n Hn.
      exists (length h), (h ++ [take (length l - n) l]),
             (length h), (h ++ [drop n l]).
      split; [rewrite (ShiftPopFacts.u_pop_pos a l h data Ha n) by lia; reflexivity|].
      split; [rewrite (ShiftPopFacts.u_shift_pos a l h data Ha n) by lia; reflexivity|].
      intros query; split.
      * rewrite (q_size_array (length h) (take (length l - n) l) query data _
                   (list_lookup_middle h [] _ (length h) eq_refl)).
        rewrite length_take, Nat.min_l by lia; reflexivity.
      * rewrite (q_size_array (length h) (drop n l) query data _
                   (list_lookup_middle h [] _ (length h) eq_refl)).
        rewrite length_drop; reflexivity.
  - intros v query data h Hv; unfold q_size; rewrite Hv; reflexivity.
  - intros v query data h [->|(z & Hz & ->)]; unfold q_size; [reflexivity|].
    cbn [truthy]; rewrite (proj2 (Z.eqb_neq z 0) Hz); reflexivity.
  - intros v query data h; unfold q_size.
    destruct v as [| |b|[z|]|a]; cbn [truthy]; try (eexists; reflexivity).
    + destruct b; eexists; reflexivity.
    + destruct (negb (z =? 0)%Z); eexists; reflexivity.
Qed.

Lemma q_size_follows_updates_witness :
  let l := [VNum (Int 1); VNum (Int 2)] in
  (exists h1,
      u_push (VArr 0) (VNum (Int 3)) VUndef [l] = (Ok (VArr 0), h1) /\
      q_size (VArr 0) (VNum (Int 3)) VUndef h1 = Ok true) /\
  q_size (VNum (Int 5)) VUndef VUndef [l] = Ok true /\
  q_size (VNum (Int 5)) (VNum (Int 0)) VUndef [l] = Ok false.
Proof.
  intros l.
  destruct q_size_follows_updates as (Harr & _ & Hnone & _).
  split; [|split].
  - destruct (Harr 0 l VUndef [l] eq_refl) as (_ & Hone & _).
    destruct (Hone (VNum (Int 3)) eq_refl) as (h1 & h2 & Hpush & _ & Hsize).
    exists h1; split; [exact Hpush|].
    apply (Hsize (VNum (Int 3))); reflexivity.
  - apply (Hnone (VNum (Int 5)) VUndef VUndef [l]).
    right; exists 5%Z; split; [lia|reflexivity].
  - apply (Hnone (VNum (Int 5)) (VNum (Int 0)) VUndef [l]).
    right; exists 5%Z; split; [lia|reflexivity].
Defined.

End SizeLaws.

(** ** [parse] and [value] against each other *)

Module ParseValueLaws.
Import SchemaTypeArray.

Lemma Forall2_back (p v : val -> outcome val) (l ys : list val) :
  (forall x y, p x = Ok y -> v y = Ok x) ->
  Forall2 (fun x y => p x = Ok y) l ys ->
  Forall2 (fun y x => v y = Ok x) ys l.
Proof.
  intros Hback H; induction H; constructor; auto.
Qed.

(** X18.  [value] undoes [parse], and [parse] undoes [value], when the
    child's do on the elements.  For a child whose [parse] and [value] do
    not touch the store: if the child's [value] gives back what its
    [parse] was given, then [value] of the array that [parse] makes of an
    array is a third array with the elements of the first; none of the
    three shares its elements with another, and the first two stay as they
    were.  The same holds with [parse] and [value] exchanged. *)
Theorem value_parse_round_trip :
  forall this data (p v : val -> outcome val),
    (forall x h, st_parse (child this) x data h = (p x, h)) ->
    (forall x h, st_value (child this) x data h = (v x, h)) ->
    forall a l ys h,
      h !! a = Some l ->
      ((forall x y, p x = Ok y -> v y = Ok x) ->
       Forall2 (fun x y => p x = Ok y) l ys ->
       parse this (VArr a) data h = (Ok (VArr (length h)), h ++ [ys]) /\
       value this (VArr (length h)) data (h ++ [ys])
         = (Ok (VArr (S (length h))), h ++ [ys] ++ [l])) /\
      ((forall x y, v x = Ok y -> p y = Ok x) ->
       Forall2 (fun x y => v x = Ok y) l ys ->
       value this (VArr a) data h = (Ok (VArr (length h)), h ++ [ys]) /\
       parse this (VArr (length h)) data (h ++ [ys])
         = (Ok (VArr (S (length h))), h ++ [ys] ++ [l])).
Proof.
  intros this data p v Hp Hv a l ys h Ha; split; intros Hback Hall.
  - split.
    + rewrite ParseFacts.parse_unfold.
      apply (ElementFacts.each_into_new_ok _ data p (fun x h => Hp x h) a l ys h Ha Hall).
    + rewrite ParseFacts.value_unfold.
      rewrite (ElementFacts.each_into_new_ok _ data v (fun x h => Hv x h)
                 (length h) ys l (h ++ [ys])
                 (list_lookup_middle h [] ys (length h) eq_refl)
                 (Forall2_back p v l ys Hback Hall)).
      rewrite length_app, Nat.add_1_r, <- app_assoc; reflexivity.
  - split.
    + rewrite ParseFacts.value_unfold.
      apply (ElementFacts.each_into_new_ok _ data v (fun x h => Hv x h) a l ys h Ha Hall).
    + rewrite ParseFacts.parse_unfold.
      rewrite (ElementFacts.each_into_new_ok _ data p (fun x h => Hp x h)
                 (length h) ys l (h ++ [ys])
                 (list_lookup_middle h [] ys (length h) eq_refl)
                 (Forall2_back v p l ys Hback Hall)).
      rewrite length_app, Nat.add_1_r, <- app_assoc; reflexivity.
Qed.

(** The stored array [[2, 3]] is read as [[1, 2]] and written as [[2, 3]]
    again. *)
Lemma value_parse_round_trip_witness :
  let l := [VNum (Int 2); VNum (Int 3)] in
  let ys := [VNum (Int 1); VNum (Int 2)] in
  parse Samples.shifted_elements (VArr 0) VUndef [l] = (Ok (VArr 1), [l; ys]) /\
  value Samples.shifted_elements (VArr 1) VUndef [l; ys]
    = (Ok (VArr 2), [l; ys; l]).
Proof.
  intros l ys.
  destruct (value_parse_round_trip Samples.shifted_elements VUndef
              Samples.stored Samples.to_store
              (fun x h => eq_refl) (fun x h => eq_refl) 0 l ys [l] eq_refl)
    as (Hround & _).
  apply Hround.
  - intros x y; destruct x as [| |b|[z|]|a]; intros [= <-]; try reflexivity.
    simpl; do 3 f_equal; lia.
  - repeat constructor.
Defined.

End ParseValueLaws.

(** ** [match] and [compare] against each other *)

Module MatchCompareLaws.
Import SchemaTypeArray.

Lemma strict_eq_sym (x y : val) : strict_eq x y = strict_eq y x.
Proof.
  destruct x as [| |b|[z|]|a], y as [| |b'|[z'|]|a'];
    try reflexivity; apply bool_decide_ext; split; congruence.
Qed.

Lemma for_find_ext {R} (n i : nat) (body body' : nat -> outcome (option R)) :
  (forall j, body j = body' j) -> for_find n i body = for_find n i body'.
Proof.
  intros H; revert i; induction n as [|n IH]; intros i; simpl; [reflexivity|].
  rewrite H; destruct (body' i) as [[x|]|e]; simpl; auto.
Qed.

Lemma get_length_truthy (v : val) (h : heap) :
  truthy v = true -> exists len, get_length v h = Ok len.
Proof. destruct v; try discriminate; simpl; eauto. Qed.

Lemma lexicographic_ties (cmp : val -> val -> outcome number) (la lb : list val) :
  Forall2 (fun x y => cmp x y = Ok (Int 0)) la lb ->
  Loops.lexicographic cmp la lb = Ok (Int 0).
Proof.
  induction 1 as [|x y la lb Hxy _ IH]; simpl; [reflexivity|].
  rewrite Hxy; simpl; exact IH.
Qed.

Lemma lexicographic_prefix (cmp : val -> val -> outcome number) (l ext : list val) :
  (forall x, x ∈ l -> cmp x x = Ok (Int 0)) ->
  Loops.lexicographic cmp l (l ++ ext) = Ok (Int (- Z.of_nat (length ext))).
Proof.
  induction l as [|x l IH]; intros Hrefl.
  - destruct ext; simpl; do 2 f_equal; lia.
  - simpl. rewrite (Hrefl x) by left; simpl.
    apply IH; intros y Hy; apply Hrefl; right; exact Hy.
Qed.

(** X19.  [match] is symmetric when the child's [match] is: the value and
    the query, each of them undefined, null, a boolean, a number or an
    array, can be exchanged.  An array matches itself when each of its
    elements matches itself for the child; undefined, null, a boolean and
    a number other than NaN match themselves whatever the child is; NaN
    does not match NaN. *)
Theorem match_symmetric :
  forall this data h,
    ((forall x y, st_match (child this) x y data h
                  = st_match (child this) y x data h) ->
     forall v q, match_ this v q data h = match_ this q v data h) /\
    (forall a,
        (forall x, x ∈ elems a h -> st_match (child this) x x data h = Ok true) ->
        match_ this (VArr a) (VArr a) data h = Ok true) /\
    (forall v,
        v = VUndef \/ v = VNull \/ (exists b, v = VBool b)
        \/ (exists z, v = VNum (Int z)) ->
        match_ this v v data h = Ok true) /\
    match_ this (VNum NaN) (VNum NaN) data h = Ok false.
Proof.
  intros this data h; split; [|split; [|split]].
  - intros Hsym v q; unfold match_.
    rewrite (orb_comm (negb (truthy q))), (strict_eq_sym q v).
    destruct (truthy v) eqn:Hv, (truthy q) eqn:Hq; cbn [negb orb]; try reflexivity.
    destruct (get_length_truthy v h Hv) as (lenA & ->).
    destruct (get_length_truthy q h Hq) as (lenB & ->).
    cbn [bindO]. rewrite !strict_eq_len.
    rewrite (bool_decide_ext (lenB = lenA) (lenA = lenB)) by (split; congruence).
    case_bool_decide as Hlen; [|reflexivity]; subst lenB; cbn [negb].
    f_equal. apply for_find_ext; intros j; rewrite Hsym; reflexivity.
  - intros a Hrefl; apply MatchFacts.match_arrays.
    apply Forall_Forall2_diag, Forall_forall; exact Hrefl.
  - intros v [->|[->|[(b & ->)|(z & ->)]]]; unfold match_; try reflexivity.
    + destruct b; reflexivity.
    + cbn [truthy]; destruct (z =? 0)%Z; cbn [negb orb]; [|reflexivity].
      f_equal; apply bool_decide_eq_true; reflexivity.
  - reflexivity.
Qed.

Lemma match_symmetric_witness :
  let h := [[VNum (Int 1)]; [VNum (Int 1)]] in
  match_ Samples.shifted_elements (VArr 0) (VArr 1) VUndef h
  = match_ Samples.shifted_elements (VArr 1) (VArr 0) VUndef h /\
  match_ Samples.shifted_elements (VArr 0) (VArr 0) VUndef h = Ok true /\
  match_ Samples.shifted_elements (VNum (Int 5)) (VNum (Int 5)) VUndef h = Ok true.
Proof.
  intros h.
  destruct (match_symmetric Samples.shifted_elements VUndef h)
    as (Hsym & Harr & Hself & _).
  split; [|split].
  - apply Hsym; intros x y; simpl; f_equal; apply strict_eq_sym.
  - apply Harr; intros x Hx; apply list_elem_of_In in Hx; simpl in Hx.
    destruct Hx as [<-|[]]; reflexivity.
  - apply Hself; right; right; right; exists 5%Z; reflexivity.
Defined.

(** X20.  What matches compares equal, and a prefix sorts first.  When the
    child's [compare] is zero wherever the child's [match] is true, then
    [compare] of the array type is zero on arrays and falsy values
    wherever [match] is true.  When each element compares zero with
    itself, an array compares zero with itself, and against an array that
    continues it the answer is minus the number of further elements. *)
Theorem match_implies_compare_zero :
  forall this data h,
    ((forall x y, st_match (child this) x y data h = Ok true ->
                  st_compare (child this) x y h = Ok (Int 0)) ->
     forall v q,
       (isArray v = true \/ truthy v = false) ->
       (isArray q = true \/ truthy q = false) ->
       match_ this v q data h = Ok true ->
       compare this v q h = Ok (Int 0)) /\
    (forall a b l ext,
        h !! a = Some l -> h !! b = Some (l ++ ext) ->
        (forall x, x ∈ l -> st_compare (child this) x x h = Ok (Int 0)) ->
        compare this (VArr a) (VArr a) h = Ok (Int 0) /\
        compare this (VArr a) (VArr b) h = Ok (Int (- Z.of_nat (length ext)))).
Proof.
  intros this data h; split.
  - intros Hchild v q Hv Hq Hmatch.
    destruct (truthy v) eqn:Tv, (truthy q) eqn:Tq.
    + destruct Hv as [Hv|Hv]; [|discriminate].
      destruct Hq as [Hq|Hq]; [|discriminate].
      destruct v as [| | | |a]; try discriminate.
      destruct q as [| | | |b]; try discriminate.
      rewrite CompareFacts.compare_arrays_lexicographic.
      apply lexicographic_ties.
      apply MatchFacts.match_arrays in Hmatch.
      eapply Forall2_impl; [exact Hmatch|].
      intros x y Hxy; apply Hchild, Hxy.
    + rewrite MatchFacts.match_falsy in Hmatch by (right; exact Tq).
      injection Hmatch as Hmatch; apply MatchFacts.strict_eq_true in Hmatch.
      subst q; congruence.
    + rewrite MatchFacts.match_falsy in Hmatch by (left; exact Tv).
      injection Hmatch as Hmatch; apply MatchFacts.strict_eq_true in Hmatch.
      subst q; congruence.
    + unfold compare; rewrite Tv, Tq; reflexivity.
  - intros a b l ext Ha Hb Hrefl.
    rewrite !CompareFacts.compare_arrays_lexicographic.
    rewrite (elems_lookup _ _ _ Ha), (elems_lookup _ _ _ Hb).
    split; [|apply lexicographic_prefix, Hrefl].
    pose proof (lexicographic_prefix
                  (fun x y => st_compare (child this) x y h) l [] Hrefl) as E.
    rewrite app_nil_r in E; exact E.
Qed.

Lemma match_implies_compare_zero_witness :
  let h := [[VNum (Int 1); VNum (Int 2)]; [VNum (Int 1); VNum (Int 2); VNum (Int 3)]] in
  compare Samples.shifted_elements (VArr 0) (VArr 0) h = Ok (Int 0) /\
  compare Samples.shifted_elements (VArr 0) (VArr 1) h = Ok (Int (-1)).
Proof.
  intros h.
  destruct (match_implies_compare_zero Samples.shifted_elements VUndef h)
    as (_ & Hprefix).
  apply (Hprefix 0 1 [VNum (Int 1); VNum (Int 2)] [VNum (Int 3)] eq_refl eq_refl).
  intros x Hx; apply list_elem_of_In in Hx; simpl in Hx.
  destruct Hx as [<-|[<-|[]]]; reflexivity.
Defined.

End MatchCompareLaws.

(** ** Values that are not arrays, and errors of the child *)

Module EdgeLaws.
Import SchemaTypeArray.

Lemma each_into_new_grows (op : val -> val -> M val) (data : val)
  (f : val -> outcome val) :
  (forall x h, op x data h = (f x, h)) ->
  forall v h,
    exists o new,
      Loops.each_into_new op data v h = (o, h ++ new) /\
      length new <= 1 /\
      (forall r, o = Ok r -> r = v /\ truthy v = false /\ new = [] \/
                             r = VArr (length h) /\ truthy v = true /\ length new = 1).
Proof.
  intros Hpure v h.
  destruct (truthy v) eqn:Tv.
  - destruct (isArray v) eqn:Av.
    + destruct v as [| | | |a]; try discriminate.
      destruct (h !! a) as [l|] eqn:Ha.
      * destruct (ElementFacts.all_or_first_error f l)
          as [(ys & Hys)|(l1 & ys1 & x & l2 & e & -> & H1 & Hx)].
        -- exists (Ok (VArr (length h))), [ys].
           split; [apply (ElementFacts.each_into_new_ok op data f Hpure a l ys h Ha Hys)|].
           split; [simpl; lia|].
           intros r [= <-]; right; auto.
        -- exists (Throw e), [ys1 ++ replicate (S (length l2)) VUndef].
           split; [apply (ElementFacts.each_into_new_throw op data f Hpure
                            a l1 ys1 x l2 e h Ha H1 Hx)|].
           split; [simpl; lia|discriminate].
      * exists (Ok (VArr (length h))), [[]].
        split.
        -- unfold Loops.each_into_new, bind, liftO; cbn [truthy negb get_length].
           unfold elems; rewrite Ha; reflexivity.
        -- split; [simpl; lia|]. intros r [= <-]; right; auto.
    + exists (Ok (VArr (length h))), [[]].
      split; [apply ElementFacts.each_into_new_primitive; assumption|].
      split; [simpl; lia|]. intros r [= <-]; right; auto.
  - exists (Ok v), [].
    split; [rewrite app_nil_r; apply ElementFacts.each_into_new_falsy, Tv|].
    split; [simpl; lia|]. intros r [= <-]; left; auto.
Qed.

(** X21.  [parse] and [value] never change an array that exists.  With a
    child whose [parse] and [value] do not touch the store, whatever the
    input is and whether the child fails or not, the store afterwards is
    the store before with at most one array added; a result is the input
    itself when it is falsy and the added array otherwise, and a truthy
    input that is not an array gives a new empty array. *)
Theorem parse_value_only_allocate :
  forall this data (p v : val -> outcome val),
    (forall x h, st_parse (child this) x data h = (p x, h)) ->
    (forall x h, st_value (child this) x data h = (v x, h)) ->
    forall x h,
      (exists o new,
          parse this x data h = (o, h ++ new) /\ length new <= 1 /\
          (forall r, o = Ok r ->
                     r = x /\ truthy x = false /\ new = [] \/
                     r = VArr (length h) /\ truthy x = true /\ length new = 1)) /\
      (exists o new,
          value this x data h = (o, h ++ new) /\ length new <= 1 /\
          (forall r, o = Ok r ->
                     r = x /\ truthy x = false /\ new = [] \/
                     r = VArr (length h) /\ truthy x = true /\ length new = 1)) /\
      (truthy x = true -> isArray x = false ->
       parse this x data h = (Ok (VArr (length h)), h ++ [[]]) /\
       value this x data h = (Ok (VArr (length h)), h ++ [[]])).
Proof.
  intros this data p v Hp Hv x h.
  split; [|split].
  - rewrite ParseFacts.parse_unfold; apply (each_into_new_grows _ data p Hp).
  - rewrite ParseFacts.value_unfold; apply (each_into_new_grows _ data v Hv).
  - intros Tx Ax; split.
    + rewrite ParseFacts.parse_unfold.
      apply ElementFacts.each_into_new_primitive; assumption.
    + rewrite ParseFacts.value_unfold.
      apply ElementFacts.each_into_new_primitive; assumption.
Qed.

Lemma parse_value_only_allocate_witness :
  let h := [[VNum (Int 2)]] in
  (exists o new,
      parse Samples.shifted_elements (VArr 0) VUndef h = (o, h ++ new) /\
      length new <= 1) /\
  parse Samples.shifted_elements (VBool true) VUndef h = (Ok (VArr 1), h ++ [[]]).
Proof.
  intros h.
  pose proof (parse_value_only_allocate Samples.shifted_elements VUndef
                Samples.stored Samples.to_store
                (fun x h => eq_refl) (fun x h => eq_refl)) as Hall.
  split.
  - destruct (Hall (VArr 0) h) as ((o & new & Hrun & Hlen & _) & _).
    exists o, new; auto.
  - destruct (Hall (VBool true) h) as (_ & _ & Hprim).
    apply Hprim; reflexivity.
Defined.

(** X22.  [match] and [compare] on truthy values that are not arrays,
    true and the numbers but 0 and NaN.  Such values have no length: any
    two of them match, whatever they are, and compare as NaN; one of them
    never matches an array, on either side, and compares with it as NaN.
    Neither operation throws here or asks the child. *)
Theorem match_compare_without_length :
  forall this data h v,
    truthy v = true -> isArray v = false ->
    (forall q,
        truthy q = true -> isArray q = false ->
        match_ this v q data h = Ok true /\
        compare this v q h = Ok NaN) /\
    (forall a,
        match_ this v (VArr a) data h = Ok false /\
        match_ this (VArr a) v data h = Ok false /\
        compare this v (VArr a) h = Ok NaN /\
        compare this (VArr a) v h = Ok NaN).
Proof.
  intros this data h v Tv Av; split.
  - intros q Tq Aq; unfold match_, compare; rewrite Tv, Tq.
    destruct v as [| |b|n|a]; try discriminate;
      destruct q as [| |b'|n'|a']; try discriminate; split; reflexivity.
  - intros a; unfold match_, compare; rewrite Tv; cbn [truthy negb orb].
    destruct v as [| |b|n|a']; try discriminate; auto.
Qed.

Lemma match_compare_without_length_witness :
  match_ Samples.shifted_elements (VNum (Int 5)) (VNum (Int 7)) VUndef [] = Ok true /\
  compare Samples.shifted_elements (VNum (Int 5)) (VNum (Int 7)) [] = Ok NaN.
Proof.
  destruct (match_compare_without_length Samples.shifted_elements VUndef []
              (VNum (Int 5)) eq_refl eq_refl) as (Hprim & _).
  apply (Hprim (VNum (Int 7))); reflexivity.
Defined.

End EdgeLaws.
